(** * plasmatools: the plasma-current termination detector [shot_length]

    A shallow embedding of [src/plasmatools.py].  Arrays of doubles are
    lists of Rocq's primitive binary64 floats, so every comparison,
    subtraction and product below rounds exactly as NumPy's [float64]
    does.  The MDSplus data layer is an interface whose calls may raise;
    a call of [shot_length] yields its outcome together with the warnings
    it issued through [warnings.warn]. *)

From Stdlib Require Import String Ascii.
From Stdlib Require Import List Bool Arith ZArith Lia.
From Stdlib Require Import Floats.
Import ListNotations.

Local Open Scope float_scope.

(** ** NumPy array operations used by [shot_length] *)

Module Np.

(** [a[k:]] *)
Definition slice_from {A} (k : nat) (a : list A) : list A := skipn k a.

(** [a[:-k]] for [k > 0] *)
Definition slice_to_neg {A} (k : nat) (a : list A) : list A :=
  firstn (length a - k) a.

(** [a[-k:]] for [k > 0]: the last [k] entries, the whole array when it is
    shorter than [k]. *)
Definition slice_last {A} (k : nat) (a : list A) : list A :=
  skipn (length a - k) a.

(** Element-wise binary operation on two arrays of equal shape. *)
Fixpoint zip_with {A B C} (f : A -> B -> C) (a : list A) (b : list B) : list C :=
  match a, b with
  | x :: a', y :: b' => f x y :: zip_with f a' b'
  | _, _ => []
  end.

(** [a[mask]] where the mask has the shape of [a]. *)
Fixpoint select {A} (a : list A) (mask : list bool) : list A :=
  match a, mask with
  | x :: a', m :: mask' => if m then x :: select a' mask' else select a' mask'
  | _, _ => []
  end.

(** Indices of the true entries, counted from [i]. *)
Fixpoint nonzero_from (i : nat) (m : list bool) : list nat :=
  match m with
  | [] => []
  | b :: m' => if b then i :: nonzero_from (S i) m' else nonzero_from (S i) m'
  end.

(** [scipy.nonzero(m)] for a one-dimensional boolean array. *)
Definition nonzero (m : list bool) : list nat := nonzero_from 0 m.

End Np.

(** ** Outcomes, exceptions and warnings *)

Inductive exn : Type :=
| IndexError
| MdsError (msg : string).

(** What a call of [shot_length] ends with. *)
Inductive outcome : Type :=
| Returned (v : float)
| Raised (e : exn).

(** A warning issued by [shot_length] itself, through [warnings.warn]. *)
Inductive warning : Type :=
| RuntimeWarning (msg : string).

(** Calls into the data layer either give a value or raise. *)
Inductive result (A : Type) : Type :=
| Ok (a : A)
| Err (e : exn).

Arguments Ok {A} a.
Arguments Err {A} e.

Definition bind {A B} (r : result A) (k : A -> result B) : result B :=
  match r with
  | Ok a => k a
  | Err e => Err e
  end.

Notation "x <- r ;; k" := (bind r (fun x => k))
  (at level 61, r at next level, right associativity).

(** ** The detection algorithm (lines 63-86 of the source) *)

Section Detect.

Variable threshold : float.

(** [mask = t >= 0.0] *)
Definition time_mask (t : list float) : list bool :=
  map (fun x => 0 <=? x) t.

(** [Ip[-k:] <= threshold] *)
Definition tail_mask (k : nat) (Ip : list float) : list bool :=
  map (fun x => x <=? threshold) (Np.slice_last k Ip).

(** [((Ip[:-1] - threshold) * (Ip[1:] - threshold)) <= 0.0] followed by
    [Ip[-1:] <= threshold] *)
Definition delta_prod_mask (Ip : list float) : list bool :=
  Np.zip_with (fun a b => (a - threshold) * (b - threshold) <=? 0)
              (Np.slice_to_neg 1 Ip) (Np.slice_from 1 Ip)
  ++ tail_mask 1 Ip.

(** [(Ip[k:] - Ip[:-k]) <= 0.0] followed by [Ip[-k:] <= threshold]; the
    source uses it with [k = 1] and [k = 8]. *)
Definition delta_mask (k : nat) (Ip : list float) : list bool :=
  Np.zip_with (fun a b => a - b <=? 0)
              (Np.slice_from k Ip) (Np.slice_to_neg k Ip)
  ++ tail_mask k Ip.

Definition delta_1_mask := delta_mask 1.
Definition delta_8_mask := delta_mask 8.

(** [delta_prod_mask & delta_1_mask & delta_8_mask] *)
Definition all_masks (Ip : list float) : list bool :=
  Np.zip_with andb
    (Np.zip_with andb (delta_prod_mask Ip) (delta_1_mask Ip))
    (delta_8_mask Ip).

Definition cond_met (Ip : list float) : list nat :=
  Np.nonzero (all_masks Ip).

(** The part of [shot_length] after the data has been loaded.  [Ip] is the
    absolute current, [t] its time base.  Indexing [Ip] by a boolean mask
    of another length raises [IndexError], except that NumPy accepts an
    empty mask on any array and selects nothing; an index past the end of
    [t] raises [IndexError] too. *)
Definition detect (Ip t : list float) : outcome :=
  let mask := time_mask t in
  if negb (length Ip =? length mask)%nat && negb (length mask =? 0)%nat
  then Raised IndexError else
  let Ip := Np.select Ip mask in
  let t := Np.select t mask in
  match cond_met Ip with
  | [] => Returned 0
  | i :: _ =>
      match nth_error t i with
      | Some v => Returned v
      | None => Raised IndexError
      end
  end.

End Detect.


(** ** The MDSplus data layer (an external collaborator)

    Only the calls [shot_length] makes are modelled; each may raise. *)

Module MDSplus.

Record api (Tree Node : Type) : Type := {
  (** [MDSplus.Tree(tree, shot)] *)
  open_tree : string -> option Z -> result Tree;
  (** [str(tree.getDefault())] *)
  getDefault : Tree -> result string;
  (** [tree.getNode(path)] *)
  getNode : Tree -> string -> result Node;
  (** [scipy.asarray(n.data(), dtype=float)] *)
  data : Node -> result (list float);
  (** [scipy.asarray(n.dim_of().data(), dtype=float)] *)
  dim_of_data : Node -> result (list float)
}.

Arguments open_tree {Tree Node} _ _ _.
Arguments getDefault {Tree Node} _ _.
Arguments getNode {Tree Node} _ _ _.
Arguments data {Tree Node} _ _.
Arguments dim_of_data {Tree Node} _ _.

End MDSplus.

(** The [tree] argument: a tree name, or a tree that is already open. *)
Inductive tree_arg (Tree : Type) : Type :=
| TreeName (name : string)
| TreeHandle (tr : Tree).

Arguments TreeName {Tree} name.
Arguments TreeHandle {Tree} tr.

(** [d[:-3]] *)
Definition drop_last3 (d : string) : string :=
  String.substring 0 (String.length d - 3) d.

Definition backslash : string := String (ascii_of_nat 92) EmptyString.

Definition load_warning : warning :=
  RuntimeWarning "Could not load plasma current data!".

Definition default_threshold : float := 1.2e5.

Section ShotLength.

Context {Tree Node : Type}.
Variable mds : MDSplus.api Tree Node.

(** Lines 47-55: locate the [Ip] node. *)
Definition ip_node (shot : option Z) (tree : tree_arg Tree) : result Node :=
  match tree with
  | TreeHandle tr =>
      d <- MDSplus.getDefault mds tr ;;
      match MDSplus.getNode mds tr (drop_last3 d ++ "Ip") with
      | Ok n => Ok n
      | Err _ => MDSplus.getNode mds tr (d ++ "::Ip")
      end
  | TreeName name =>
      tr <- MDSplus.open_tree mds name shot ;;
      MDSplus.getNode mds tr (backslash ++ name ++ "::Ip")
  end.

(** Lines 47-57, the body of the [try]: the absolute current and its time
    base. *)
Definition load (shot : option Z) (tree : tree_arg Tree)
  : result (list float * list float) :=
  n <- ip_node shot tree ;;
  raw <- MDSplus.data mds n ;;
  t <- MDSplus.dim_of_data mds n ;;
  Ok (map abs raw, t).

(** [shot_length(shot, tree, threshold)]: the outcome and the warnings the
    function issued itself, by its call of [warnings.warn] (line 60).  The
    floating-point warnings that NumPy may issue while it evaluates lines
    69-79 (invalid value, overflow) are not part of the model. *)
Definition shot_length (shot : option Z) (tree : tree_arg Tree)
           (threshold : float) : outcome * list warning :=
  match load shot tree with
  | Err _ => (Returned 0, [load_warning])
  | Ok (Ip, t) => (detect threshold Ip t, [])
  end.

End ShotLength.

(** A data layer that serves one stored signal under any name. *)
Definition array_source (raw t : list float) : MDSplus.api unit unit := {|
  MDSplus.open_tree := fun _ _ => Ok tt;
  MDSplus.getDefault := fun _ => Ok "\MAGNETICS::TOP"%string;
  MDSplus.getNode := fun _ _ => Ok tt;
  MDSplus.data := fun _ => Ok raw;
  MDSplus.dim_of_data := fun _ => Ok t
|}.

(** A data layer whose tree cannot be opened. *)
Definition offline_source : MDSplus.api unit unit := {|
  MDSplus.open_tree := fun _ _ => Err (MdsError "TreeNOT_OPEN");
  MDSplus.getDefault := fun _ => Err (MdsError "TreeNOT_OPEN");
  MDSplus.getNode := fun _ _ => Err (MdsError "TreeNNF");
  MDSplus.data := fun _ => Err (MdsError "TreeNODATA");
  MDSplus.dim_of_data := fun _ => Err (MdsError "TreeNODATA")
|}.

(** ** A data layer that serves the current with the opposite sign *)

Definition map_result {A B} (f : A -> B) (r : result A) : result B :=
  match r with
  | Ok a => Ok (f a)
  | Err e => Err e
  end.

(** The data layer [mds] with every current sample negated. *)
Definition opposite_sign {Tree Node : Type} (mds : MDSplus.api Tree Node)
  : MDSplus.api Tree Node := {|
  MDSplus.open_tree := MDSplus.open_tree mds;
  MDSplus.getDefault := MDSplus.getDefault mds;
  MDSplus.getNode := MDSplus.getNode mds;
  MDSplus.data := fun n => map_result (map PrimFloat.opp) (MDSplus.data mds n);
  MDSplus.dim_of_data := MDSplus.dim_of_data mds
|}.

(** ** The indicators as the specification words them (section 4.1)

    [N] is the length of the filtered current [Ip]; each indicator is read
    at an index [i < N]. *)

Section Indicators.

Variable threshold : float.
Variable Ip : list float.

Definition sample (i : nat) : float := nth i Ip 0.

(** Sign-change indicator [A[i]]. *)
Definition indicator_A (i : nat) : bool :=
  if (S i <? length Ip)%nat
  then (sample i - threshold) * (sample (S i) - threshold) <=? 0
  else sample i <=? threshold.

(** Single-step non-increase indicator [B[i]]. *)
Definition indicator_B (i : nat) : bool :=
  if (S i <? length Ip)%nat
  then sample (S i) - sample i <=? 0
  else sample i <=? threshold.

(** 8-step non-increase indicator [C[i]]. *)
Definition indicator_C (i : nat) : bool :=
  if (i + 8 <? length Ip)%nat
  then sample (i + 8) - sample i <=? 0
  else sample i <=? threshold.

Definition met (i : nat) : bool :=
  indicator_A i && indicator_B i && indicator_C i.

(** [i] is the smallest index at which all three indicators hold. *)
Definition first_met (i : nat) : Prop :=
  (i < length Ip)%nat /\ met i = true /\
  forall j, (j < i)%nat -> met j = false.

End Indicators.

(** The filtered signal: [Ip[mask]] and [t[mask]]. *)
Definition filtered_Ip (Ip t : list float) : list float :=
  Np.select Ip (time_mask t).
Definition filtered_t (t : list float) : list float :=
  Np.select t (time_mask t).

(** ** Signals used as examples *)

(** The scenario of the specification (section 8). *)
Definition scenario_time : list float :=
  [-1; 0; 1; 2; 3; 4; 5; 6; 7; 8; 9].
Definition scenario_current : list float :=
  [2e5; 2e5; 2e5; 1e5; 1e5; 1e5; 1e5; 1e5; 1e5; 1e5; 1e5].

(** A current that drops below the threshold seven samples before the end
    of the record. *)
Definition late_drop_time : list float := [0; 1; 2; 3; 4; 5; 6; 7; 8; 9].
Definition late_drop_current : list float :=
  [2e5; 2e5; 2e5; 1e5; 1e5; 1e5; 1e5; 1e5; 1e5; 1e5].

(** A flat current with a one-sample dip. *)
Definition dip_time : list float := [0; 1; 2; 3; 4; 5; 6; 7; 8; 9; 10].
Definition dip_current : list float :=
  [2e5; 2e5; 1e5; 2e5; 2e5; 2e5; 2e5; 2e5; 2e5; 2e5; 2e5].

(** A dip whose predecessor is lower than the current eight samples on. *)
Definition ramp_dip_current : list float :=
  [2e5; 2e5; 1e5; 2e5; 2e5; 2e5; 2e5; 2e5; 2e5; 3e5; 3e5].

(** A tiny positive current, [2^-600] A, against a zero threshold. *)
Definition tiny_time : list float := [1; 2; 3; 4; 5; 6; 7; 8; 9].
Definition tiny_current : list float := repeat 0x1p-600 9.

(** A current that falls right after the first sample, taken at [t = 0]. *)
Definition early_drop_time : list float := [0; 1; 2; 3; 4; 5; 6; 7; 8; 9].
Definition early_drop_current : list float :=
  [2e5; 1e5; 1e5; 1e5; 1e5; 1e5; 1e5; 1e5; 1e5; 1e5].

(** A threshold from which the sign test cannot underflow: [2^-480] A. *)
Definition underflow_safe : float := 0x1p-480.

(** ** Properties of signals named by the claims *)

Definition monotone_decreasing (Ip : list float) : Prop :=
  forall i, (S i < length Ip)%nat -> (sample Ip (S i) <=? sample Ip i) = true.

(** The result is the time stamp of the sample [k], of the one before or of
    the one after. *)
Definition within_one_step (r : outcome) (tau : list float) (k : nat) : Prop :=
  exists j, (k - 1 <= j <= k + 1)%nat /\ (j < length tau)%nat /\
            r = Returned (nth j tau 0).

(** ** Doubles: definitions used to reason about comparisons and signs *)

Section Binary64Defs.

Local Open Scope Z_scope.

(** A bound above the magnitude of every finite double, in units of
    [2^-1074]; the two infinities sit at [big] and [- big]. *)
Definition big : Z := 2 ^ 2200.

(** An order embedding of the non-NaN doubles into the integers: a
    finite double is an integer multiple of [2^-1074]. *)
Definition ord (x : spec_float) : Z :=
  match x with
  | S754_zero _ => 0
  | S754_nan => 0
  | S754_infinity s => cond_Zopp s big
  | S754_finite s m e => cond_Zopp s (Z.pos m * 2 ^ (e + 1074))
  end.

Definition is_nan_sf (x : spec_float) : bool :=
  match x with S754_nan => true | _ => false end.

(** The sign bit of a double that is not NaN. *)
Definition sgn_of (x : spec_float) : option bool :=
  match x with
  | S754_nan => None
  | S754_zero s | S754_infinity s | S754_finite s _ _ => Some s
  end.

Definition is_zero_sf (x : spec_float) : bool :=
  match x with S754_zero _ => true | _ => false end.

Definition is_inf_sf (x : spec_float) : bool :=
  match x with S754_infinity _ => true | _ => false end.

Definition fnan (a : float) : bool := is_nan_sf (Prim2SF a).

Definition ford (a : float) : Z := ord (Prim2SF a).

End Binary64Defs.

(** * Facts about binary64 arithmetic

    Derived from the specification of the primitive operations
    ([FloatAxioms]) and the reference implementation [SpecFloat]. *)

Section Binary64.

Local Open Scope Z_scope.


Lemma digits2_pos_bounds (m : positive) :
  2 ^ (Z.pos (digits2_pos m) - 1) <= Z.pos m < 2 ^ Z.pos (digits2_pos m).
Proof.
  induction m as [m IH | m IH |]; cbn [digits2_pos].
  - rewrite Pos2Z.inj_succ.
    replace (Z.succ (Z.pos (digits2_pos m)) - 1) with (Z.succ (Z.pos (digits2_pos m) - 1)) by lia.
    rewrite !Z.pow_succ_r by lia. lia.
  - rewrite Pos2Z.inj_succ.
    replace (Z.succ (Z.pos (digits2_pos m)) - 1) with (Z.succ (Z.pos (digits2_pos m) - 1)) by lia.
    rewrite !Z.pow_succ_r by lia. lia.
  - cbn. lia.
Qed.

Lemma big_pos : 0 < big.
Proof. unfold big. apply Z.pow_pos_nonneg; lia. Qed.

Lemma big_bound : 2 ^ 53 * 2 ^ 2045 < big.
Proof.
  unfold big. rewrite <- Z.pow_add_r by lia. apply Z.pow_lt_mono_r; lia.
Qed.

(** What validity says about a finite double. *)
Lemma valid_finite (s : bool) (m : positive) (e : Z) :
  valid_binary (S754_finite s m e) = true ->
  -1074 <= e <= 971 /\ Z.pos m < 2 ^ 53 /\ (-1074 < e -> 2 ^ 52 <= Z.pos m).
Proof.
  cbn [SpecFloat.valid_binary]. unfold bounded, canonical_mantissa, fexp, SpecFloat.emin, emax, prec.
  intros H. apply andb_true_iff in H as [H1 H2].
  apply Z.eqb_eq in H1. apply Z.leb_le in H2.
  pose proof (digits2_pos_bounds m) as [Hlo Hhi].
  set (d := Z.pos (digits2_pos m)) in *.
  assert (Hd : d <= 53) by lia.
  repeat split; try lia.
  - apply Z.lt_le_trans with (1 := Hhi). apply Z.pow_le_mono_r; lia.
  - intros He. assert (d = 53) by lia. subst d. rewrite H in Hlo. exact Hlo.
Qed.

Lemma finite_ord_bound (s : bool) (m : positive) (e : Z) :
  valid_binary (S754_finite s m e) = true ->
  0 < Z.pos m * 2 ^ (e + 1074) < big.
Proof.
  intros H. apply valid_finite in H as (He & Hm & _).
  assert (0 < 2 ^ (e + 1074)) by (apply Z.pow_pos_nonneg; lia).
  split; [lia|].
  assert (2 ^ (e + 1074) <= 2 ^ 2045) by (apply Z.pow_le_mono_r; lia).
  pose proof big_bound.
  assert (0 < 2 ^ 53) by (apply Z.pow_pos_nonneg; lia).
  apply Z.le_lt_trans with (2 ^ 53 * 2 ^ 2045); [|assumption].
  apply Z.mul_le_mono_nonneg; try lia.
Qed.

Lemma finite_lt_exp (m1 m2 : positive) (e1 e2 : Z) s1 s2 :
  valid_binary (S754_finite s1 m1 e1) = true ->
  valid_binary (S754_finite s2 m2 e2) = true ->
  e1 < e2 ->
  Z.pos m1 * 2 ^ (e1 + 1074) < Z.pos m2 * 2 ^ (e2 + 1074).
Proof.
  intros V1 V2 He.
  apply valid_finite in V1 as (He1 & Hm1 & _).
  apply valid_finite in V2 as (He2 & _ & Hm2).
  assert (Hlt : -1074 < e2) by lia. specialize (Hm2 Hlt).
  replace (2 ^ (e2 + 1074)) with (2 ^ (e2 - e1 - 1) * 2 ^ 1 * 2 ^ (e1 + 1074)).
  2:{ rewrite <- !Z.pow_add_r by lia. f_equal. lia. }
  assert (0 < 2 ^ (e1 + 1074)) by (apply Z.pow_pos_nonneg; lia).
  assert (0 < 2 ^ (e2 - e1 - 1)) by (apply Z.pow_pos_nonneg; lia).
  change (2 ^ 1) with 2.
  change (2 ^ 53) with (2 * 2 ^ 52) in Hm1.
  set (A := 2 ^ (e1 + 1074)) in *. set (B := 2 ^ (e2 - e1 - 1)) in *.
  set (P := 2 ^ 52) in *.
  assert (Z.pos m1 * A < 2 * P * A) by (apply Z.mul_lt_mono_pos_r; lia).
  assert (2 * P * A <= Z.pos m2 * (B * 2 * A)).
  { replace (Z.pos m2 * (B * 2 * A)) with ((Z.pos m2 * B) * (2 * A)) by ring.
    replace (2 * P * A) with (P * (2 * A)) by ring.
    apply Z.mul_le_mono_nonneg_r; [lia|]. nia. }
  lia.
Qed.

Ltac cmp_goal :=
  cbn [cond_Zopp];
  match goal with
  | |- Some Lt = Some (?a ?= ?b) =>
      rewrite (proj2 (Z.compare_lt_iff a b)) by lia; reflexivity
  | |- Some Gt = Some (?a ?= ?b) =>
      rewrite (proj2 (Z.compare_gt_iff a b)) by lia; reflexivity
  | |- Some Eq = Some (?a ?= ?b) =>
      rewrite (proj2 (Z.compare_eq_iff a b)) by lia; reflexivity
  end.

(** On valid non-NaN doubles the IEEE comparison is the comparison of [ord]. *)
Lemma SFcompare_ord (x y : spec_float) :
  valid_binary x = true -> valid_binary y = true ->
  is_nan_sf x = false -> is_nan_sf y = false ->
  SFcompare x y = Some (ord x ?= ord y).
Proof.
  intros Vx Vy Nx Ny. pose proof big_pos as Hb.
  destruct x as [sx | sx | | sx mx ex]; try discriminate;
  destruct y as [sy | sy | | sy my ey]; try discriminate;
  try pose proof (finite_ord_bound _ _ _ Vx) as Bx;
  try pose proof (finite_ord_bound _ _ _ Vy) as By;
  cbn [SFcompare ord].
  - reflexivity.
  - destruct sy; cmp_goal.
  - destruct sy; cmp_goal.
  - destruct sx; cmp_goal.
  - destruct sx, sy; cmp_goal.
  - destruct sx, sy; cmp_goal.
  - destruct sx; cmp_goal.
  - destruct sx, sy; cmp_goal.
  - destruct sx, sy; try cmp_goal.
    + (* both negative *)
      cbn [cond_Zopp]. f_equal.
      destruct (Z.compare_spec ex ey) as [E | E | E].
      * subst ey. change (Pos.compare_cont Eq mx my) with (mx ?= my)%positive.
        destruct (Pos.compare_spec mx my) as [M | M | M]; cbn [CompOpp]; symmetry;
          [apply Z.compare_eq_iff | apply Z.compare_gt_iff | apply Z.compare_lt_iff];
          try (subst; reflexivity); nia.
      * symmetry. apply Z.compare_gt_iff.
        pose proof (finite_lt_exp _ _ _ _ _ _ Vx Vy E). lia.
      * symmetry. apply Z.compare_lt_iff.
        pose proof (finite_lt_exp _ _ _ _ _ _ Vy Vx E). lia.
    + cbn [cond_Zopp]. f_equal.
      destruct (Z.compare_spec ex ey) as [E | E | E].
      * subst ey. change (Pos.compare_cont Eq mx my) with (mx ?= my)%positive.
        destruct (Pos.compare_spec mx my) as [M | M | M]; symmetry;
          [apply Z.compare_eq_iff | apply Z.compare_lt_iff | apply Z.compare_gt_iff];
          try (subst; reflexivity); nia.
      * symmetry. apply Z.compare_lt_iff.
        pose proof (finite_lt_exp _ _ _ _ _ _ Vx Vy E). lia.
      * symmetry. apply Z.compare_gt_iff.
        pose proof (finite_lt_exp _ _ _ _ _ _ Vy Vx E). lia.
Qed.

(** *** Rounding: the sign and the non-vanishing of a rounded mantissa *)

Lemma shr_1_m (r : shr_record) :
  0 <= shr_m r -> shr_m (shr_1 r) = shr_m r / 2.
Proof.
  destruct r as [m b s]. cbn [shr_m shr_1].
  destruct m as [| p | p]; intros H; try lia.
  - reflexivity.
  - rewrite <- Z.div2_div. destruct p; reflexivity.
Qed.

Lemma pow2_xO (p : positive) :
  2 ^ Z.pos p~0 = 2 ^ Z.pos p * 2 ^ Z.pos p.
Proof.
  rewrite <- Z.pow_add_r by lia. f_equal; lia.
Qed.

Lemma pow2_xI (p : positive) :
  2 ^ Z.pos p~1 = 2 * (2 ^ Z.pos p * 2 ^ Z.pos p).
Proof.
  rewrite <- pow2_xO. rewrite <- Z.pow_succ_r by lia. f_equal; lia.
Qed.

Lemma iter_shr_1_m (p : positive) :
  forall r, 0 <= shr_m r ->
            shr_m (iter_pos shr_1 p r) = shr_m r / 2 ^ Z.pos p.
Proof.
  induction p as [p IH | p IH |]; intros r Hr; cbn [iter_pos].
  - assert (H1 : 0 <= shr_m (shr_1 r)).
    { rewrite shr_1_m by assumption. apply Z.div_pos; lia. }
    assert (P : 0 < 2 ^ Z.pos p) by (apply Z.pow_pos_nonneg; lia).
    assert (H2 : 0 <= shr_m (iter_pos shr_1 p (shr_1 r))).
    { rewrite IH by assumption. apply Z.div_pos; lia. }
    rewrite IH by assumption. rewrite IH by assumption.
    rewrite shr_1_m by assumption.
    rewrite !Z.div_div by lia.
    rewrite pow2_xI. f_equal; ring.
  - assert (P : 0 < 2 ^ Z.pos p) by (apply Z.pow_pos_nonneg; lia).
    assert (H2 : 0 <= shr_m (iter_pos shr_1 p r)).
    { rewrite IH by assumption. apply Z.div_pos; lia. }
    rewrite IH by assumption. rewrite IH by assumption.
    rewrite !Z.div_div by lia.
    rewrite pow2_xO. reflexivity.
  - rewrite shr_1_m by assumption. reflexivity.
Qed.

Lemma shr_record_of_loc_m (m : Z) (l : location) :
  shr_m (shr_record_of_loc m l) = m.
Proof. destruct l as [| []]; reflexivity. Qed.

Lemma shr_fexp_nonneg (m e : Z) (l : location) :
  0 <= m -> 0 <= shr_m (fst (shr_fexp prec emax m e l)).
Proof.
  intros Hm. unfold shr_fexp, shr.
  destruct (fexp prec emax (Zdigits2 m + e) - e) as [| p | p]; cbn [fst];
    rewrite ?iter_shr_1_m; rewrite ?shr_record_of_loc_m; try lia.
  apply Z.div_pos; [lia | apply Z.pow_pos_nonneg; lia].
Qed.

Lemma shr_fexp_pos (m e : Z) (l : location) :
  0 < m -> -1074 <= e ->
  0 < shr_m (fst (shr_fexp prec emax m e l)) /\
  -1074 <= snd (shr_fexp prec emax m e l).
Proof.
  intros Hm He. unfold shr_fexp, shr.
  destruct m as [| m | m]; try lia. cbn [Zdigits2].
  pose proof (digits2_pos_bounds m) as [Hlo _].
  set (d := Z.pos (digits2_pos m)) in *.
  assert (Hf : fexp prec emax (d + e) = Z.max (d + e - 53) (-1074)) by reflexivity.
  destruct (fexp prec emax (d + e) - e) as [| p | p] eqn:E; cbn [fst snd];
    rewrite ?iter_shr_1_m; rewrite ?shr_record_of_loc_m; try lia.
  split; [| lia].
  assert (Hp : Z.pos p <= d - 1) by lia.
  assert (2 ^ Z.pos p <= Z.pos m).
  { apply Z.le_trans with (2 := Hlo). apply Z.pow_le_mono_r; lia. }
  assert (0 < 2 ^ Z.pos p) by (apply Z.pow_pos_nonneg; lia).
  apply Z.div_str_pos. lia.
Qed.

Lemma round_nearest_even_ge (m : Z) (l : location) :
  m <= round_nearest_even m l.
Proof.
  destruct l as [| []]; cbn [round_nearest_even]; try lia.
  destruct (Z.even m); lia.
Qed.

(** Rounding never yields NaN and keeps the sign it is given. *)
Lemma binary_round_aux_sgn (s : bool) (m e : Z) (l : location) :
  0 <= m -> sgn_of (binary_round_aux prec emax s m e l) = Some s.
Proof.
  intros Hm. unfold binary_round_aux.
  pose proof (shr_fexp_nonneg m e l Hm) as H1.
  destruct (shr_fexp prec emax m e l) as [r1 e1]. cbn [fst] in H1.
  pose proof (round_nearest_even_ge (shr_m r1) (loc_of_shr_record r1)) as H2.
  set (m1 := round_nearest_even (shr_m r1) (loc_of_shr_record r1)) in *.
  pose proof (shr_fexp_nonneg m1 e1 loc_Exact ltac:(lia)) as H3.
  destruct (shr_fexp prec emax m1 e1 loc_Exact) as [r2 e2]. cbn [fst] in H3.
  destruct (shr_m r2) as [| p | p]; try lia; cbn [sgn_of]; try reflexivity.
  destruct (e2 <=? emax - prec); reflexivity.
Qed.

(** A positive mantissa at an exponent no smaller than [emin] does not
    round to zero (no underflow). *)
Lemma binary_round_aux_nonzero (s : bool) (m e : Z) (l : location) :
  0 < m -> -1074 <= e ->
  is_zero_sf (binary_round_aux prec emax s m e l) = false.
Proof.
  intros Hm He. unfold binary_round_aux.
  pose proof (shr_fexp_pos m e l Hm He) as [H1 H1'].
  destruct (shr_fexp prec emax m e l) as [r1 e1]. cbn [fst snd] in H1, H1'.
  pose proof (round_nearest_even_ge (shr_m r1) (loc_of_shr_record r1)) as H2.
  set (m1 := round_nearest_even (shr_m r1) (loc_of_shr_record r1)) in *.
  pose proof (shr_fexp_pos m1 e1 loc_Exact ltac:(lia) H1') as [H3 _].
  destruct (shr_fexp prec emax m1 e1 loc_Exact) as [r2 e2]. cbn [fst] in H3.
  destruct (shr_m r2) as [| p | p]; try lia; cbn [is_zero_sf]; try reflexivity.
  destruct (e2 <=? emax - prec); reflexivity.
Qed.

Lemma shl_align_exp (m : positive) (e e' : Z) :
  -1074 <= e -> -1074 <= e' -> -1074 <= snd (shl_align m e e').
Proof.
  intros. unfold shl_align. destruct (e' - e); cbn [snd]; lia.
Qed.

Lemma binary_round_strict (s : bool) (m : positive) (e : Z) :
  -1074 <= e ->
  sgn_of (binary_round prec emax s m e) = Some s /\
  is_zero_sf (binary_round prec emax s m e) = false.
Proof.
  intros He. unfold binary_round.
  assert (Hf : -1074 <= fexp prec emax (Z.pos (digits2_pos m) + e)).
  { unfold fexp, SpecFloat.emin, emax, prec. lia. }
  pose proof (shl_align_exp m e _ He Hf) as Hs.
  destruct (shl_align m e (fexp prec emax (Z.pos (digits2_pos m) + e))) as [mz ez].
  cbn [snd] in Hs. split.
  - apply binary_round_aux_sgn. lia.
  - apply binary_round_aux_nonzero; lia.
Qed.

(** *** Subtraction: the sign of [x - y] is that of [ord x - ord y] *)

Lemma iter_xO_pow (m d : positive) :
  Z.pos (Pos.iter xO m d) = Z.pos m * 2 ^ Z.pos d.
Proof.
  change (Pos.iter xO m d) with (shift_pos d m).
  rewrite shift_pos_correct. change (Z.pow_pos 2 d) with (2 ^ Z.pos d). ring.
Qed.

Lemma shl_align_ord (m : positive) (e ez : Z) :
  ez <= e -> -1074 <= ez ->
  Z.pos (fst (shl_align m e ez)) * 2 ^ (ez + 1074) = Z.pos m * 2 ^ (e + 1074).
Proof.
  intros Hle Hez. unfold shl_align.
  destruct (ez - e) as [| d | d] eqn:E; cbn [fst]; try lia.
  - replace e with ez by lia. reflexivity.
  - rewrite iter_xO_pow. rewrite <- Z.mul_assoc. rewrite <- Z.pow_add_r by lia.
    f_equal; f_equal; lia.
Qed.

Lemma cond_Zopp_mul (s : bool) (a p : Z) :
  cond_Zopp s a * p = cond_Zopp s (a * p).
Proof. destruct s; cbn [cond_Zopp]; ring. Qed.

Lemma SFsub_finite_ord (sx sy : bool) (mx my : positive) (ex ey : Z) :
  valid_binary (S754_finite sx mx ex) = true ->
  valid_binary (S754_finite sy my ey) = true ->
  exists D ez, -1074 <= ez /\ 0 < 2 ^ (ez + 1074) /\
    SF64sub (S754_finite sx mx ex) (S754_finite sy my ey)
      = binary_normalize prec emax D ez false /\
    D * 2 ^ (ez + 1074)
      = ord (S754_finite sx mx ex) - ord (S754_finite sy my ey).
Proof.
  intros Vx Vy.
  apply valid_finite in Vx as (Hex & _ & _).
  apply valid_finite in Vy as (Hey & _ & _).
  set (ez := Z.min ex ey).
  exists (cond_Zopp sx (Z.pos (fst (shl_align mx ex ez)))
          - cond_Zopp sy (Z.pos (fst (shl_align my ey ez)))), ez.
  assert (Hez : -1074 <= ez) by (unfold ez; lia).
  repeat split; try assumption.
  - apply Z.pow_pos_nonneg; lia.
  - cbn [ord]. rewrite Z.mul_sub_distr_r, !cond_Zopp_mul.
    rewrite !shl_align_ord by (unfold ez; lia). reflexivity.
Qed.

Lemma binary_normalize_sign (D ez : Z) :
  -1074 <= ez ->
  (D < 0 -> sgn_of (binary_normalize prec emax D ez false) = Some true /\
            is_zero_sf (binary_normalize prec emax D ez false) = false) /\
  (0 < D -> sgn_of (binary_normalize prec emax D ez false) = Some false /\
            is_zero_sf (binary_normalize prec emax D ez false) = false) /\
  (D = 0 -> is_zero_sf (binary_normalize prec emax D ez false) = true).
Proof.
  intros Hez. destruct D as [| p | p]; cbn [binary_normalize];
    repeat split; intros; try lia; try reflexivity;
    apply binary_round_strict; assumption.
Qed.

Lemma SFsub_sign (x y : spec_float) :
  valid_binary x = true -> valid_binary y = true ->
  is_nan_sf x = false -> is_nan_sf y = false ->
  (ord x < ord y -> sgn_of (SF64sub x y) = Some true /\
                    is_zero_sf (SF64sub x y) = false) /\
  (ord y < ord x -> sgn_of (SF64sub x y) = Some false /\
                    is_zero_sf (SF64sub x y) = false) /\
  (ord x = ord y -> is_inf_sf x = false -> is_zero_sf (SF64sub x y) = true).
Proof.
  intros Vx Vy Nx Ny. pose proof big_pos as Hb.
  destruct x as [sx | sx | | sx mx ex]; try discriminate;
  destruct y as [sy | sy | | sy my ey]; try discriminate;
  try pose proof (finite_ord_bound _ _ _ Vx) as Bx;
  try pose proof (finite_ord_bound _ _ _ Vy) as By.
  9:{ destruct (SFsub_finite_ord _ _ _ _ _ _ Vx Vy) as (D & ez & Hez & Hp & -> & HD).
      destruct (binary_normalize_sign D ez Hez) as (Hn & Hpz & Hz).
      split; [| split].
      - intros H. apply Hn. nia.
      - intros H. apply Hpz. nia.
      - intros H _. apply Hz. nia. }
  all: unfold SF64sub; cbn [SFsub ord is_inf_sf];
    repeat split; intros;
    repeat match goal with
           | s : bool |- _ => destruct s
           end;
    cbn [cond_Zopp negb sgn_of is_zero_sf] in *;
    first [reflexivity | lia | discriminate].
Qed.

(** *** Multiplication *)

Lemma SFmul_strict (x y : spec_float) (sx sy : bool) :
  sgn_of x = Some sx -> sgn_of y = Some sy ->
  is_zero_sf x = false -> is_zero_sf y = false ->
  sgn_of (SF64mul x y) = Some (xorb sx sy).
Proof.
  intros Hx Hy Zx Zy.
  destruct x as [? | ? | | ? mx ex]; try discriminate;
  destruct y as [? | ? | | ? my ey]; try discriminate;
  cbn [sgn_of] in Hx, Hy; injection Hx as ->; injection Hy as ->;
  unfold SF64mul; cbn [SFmul sgn_of]; try reflexivity.
  apply binary_round_aux_sgn. lia.
Qed.

Lemma SFmul_zero_r (x y : spec_float) :
  is_nan_sf x = false -> is_inf_sf x = false -> is_zero_sf y = true ->
  is_zero_sf (SF64mul x y) = true.
Proof.
  intros Nx Ix Zy.
  destruct x; try discriminate; destruct y; try discriminate; reflexivity.
Qed.

(** Comparison of a result with [+0]. *)
Lemma SFleb_zero (r : spec_float) :
  SFleb r (S754_zero false) =
  match sgn_of r with
  | None => false
  | Some true => true
  | Some false => is_zero_sf r
  end.
Proof. destruct r as [[] | [] | | [] ? ?]; reflexivity. Qed.

Lemma SFeqb_zero (r : spec_float) :
  SFeqb r (S754_zero false) = is_zero_sf r.
Proof. destruct r as [[] | [] | | [] ? ?]; reflexivity. Qed.

(** *** Facts about the primitive doubles *)

Lemma SFcompare_nan_r (x : spec_float) : SFcompare x S754_nan = None.
Proof. destruct x; reflexivity. Qed.

Lemma ltb_ord (a b : float) :
  (a <? b)%float = negb (fnan a) && negb (fnan b) && (ford a <? ford b).
Proof.
  rewrite ltb_spec. unfold SFltb, fnan, ford.
  destruct (is_nan_sf (Prim2SF a)) eqn:Na.
  { destruct (Prim2SF a); try discriminate. reflexivity. }
  destruct (is_nan_sf (Prim2SF b)) eqn:Nb.
  { destruct (Prim2SF b); try discriminate. rewrite SFcompare_nan_r. reflexivity. }
  rewrite SFcompare_ord by (auto using Prim2SF_valid).
  cbn [negb andb]. unfold Z.ltb. reflexivity.
Qed.

Lemma leb_ord (a b : float) :
  (a <=? b)%float = negb (fnan a) && negb (fnan b) && (ford a <=? ford b).
Proof.
  rewrite leb_spec. unfold SFleb, fnan, ford.
  destruct (is_nan_sf (Prim2SF a)) eqn:Na.
  { destruct (Prim2SF a); try discriminate. reflexivity. }
  destruct (is_nan_sf (Prim2SF b)) eqn:Nb.
  { destruct (Prim2SF b); try discriminate. rewrite SFcompare_nan_r. reflexivity. }
  rewrite SFcompare_ord by (auto using Prim2SF_valid).
  cbn [negb andb]. unfold Z.leb.
  destruct (ord (Prim2SF a) ?= ord (Prim2SF b)); reflexivity.
Qed.

Lemma ltb_true (a b : float) :
  (a <? b)%float = true <-> fnan a = false /\ fnan b = false /\ ford a < ford b.
Proof.
  rewrite ltb_ord, !andb_true_iff, !negb_true_iff, Z.ltb_lt. tauto.
Qed.

Lemma leb_true (a b : float) :
  (a <=? b)%float = true <-> fnan a = false /\ fnan b = false /\ ford a <= ford b.
Proof.
  rewrite leb_ord, !andb_true_iff, !negb_true_iff, Z.leb_le. tauto.
Qed.

Lemma flt_not_fle (a b : float) :
  (a <? b)%float = true -> (b <=? a)%float = false.
Proof.
  intros H. apply ltb_true in H as (Na & Nb & Hlt).
  rewrite leb_ord, Na, Nb. cbn [negb andb]. apply Z.leb_gt. exact Hlt.
Qed.

Lemma fle_flt_trans (a b c : float) :
  (a <=? b)%float = true -> (b <? c)%float = true -> (a <? c)%float = true.
Proof.
  intros H1 H2. apply leb_true in H1 as (Na & Nb & H1).
  apply ltb_true in H2 as (_ & Nc & H2). apply ltb_true. repeat split; auto; lia.
Qed.

Lemma flt_trans (a b c : float) :
  (a <? b)%float = true -> (b <? c)%float = true -> (a <? c)%float = true.
Proof.
  intros H1 H2. apply ltb_true in H1 as (Na & Nb & H1).
  apply ltb_true in H2 as (_ & Nc & H2). apply ltb_true. repeat split; auto; lia.
Qed.

Lemma fle_trans (a b c : float) :
  (a <=? b)%float = true -> (b <=? c)%float = true -> (a <=? c)%float = true.
Proof.
  intros H1 H2. apply leb_true in H1 as (Na & Nb & H1).
  apply leb_true in H2 as (_ & Nc & H2). apply leb_true. repeat split; auto; lia.
Qed.

Lemma leb_zero_spec (r : float) :
  (r <=? 0)%float =
  match sgn_of (Prim2SF r) with
  | None => false
  | Some true => true
  | Some false => is_zero_sf (Prim2SF r)
  end.
Proof. rewrite leb_spec. apply SFleb_zero. Qed.

Lemma eqb_zero_spec (r : float) :
  (r =? 0)%float = is_zero_sf (Prim2SF r).
Proof. rewrite eqb_spec. apply SFeqb_zero. Qed.

(** [b < a] makes the rounded difference [a - b] strictly positive. *)
Lemma sub_gt_sign (a b : float) :
  (b <? a)%float = true ->
  sgn_of (Prim2SF (a - b)) = Some false /\ is_zero_sf (Prim2SF (a - b)) = false.
Proof.
  intros H. apply ltb_true in H as (Nb & Na & Hlt).
  rewrite sub_spec.
  apply (SFsub_sign (Prim2SF a) (Prim2SF b)); auto using Prim2SF_valid.
Qed.

Lemma sub_lt_sign (a b : float) :
  (a <? b)%float = true ->
  sgn_of (Prim2SF (a - b)) = Some true /\ is_zero_sf (Prim2SF (a - b)) = false.
Proof.
  intros H. apply ltb_true in H as (Na & Nb & Hlt).
  rewrite sub_spec.
  apply (SFsub_sign (Prim2SF a) (Prim2SF b)); auto using Prim2SF_valid.
Qed.

Lemma sub_pos_gt (a b : float) :
  (b <? a)%float = true -> (a - b <=? 0)%float = false.
Proof.
  intros H. apply sub_gt_sign in H as [Hs Hz].
  rewrite leb_zero_spec, Hs. exact Hz.
Qed.

Lemma sub_neg_lt (a b : float) :
  (a <? b)%float = true -> (a - b <=? 0)%float = true.
Proof.
  intros H. apply sub_lt_sign in H as [Hs Hz].
  rewrite leb_zero_spec, Hs. reflexivity.
Qed.

(** Two samples above the threshold: the product of their excesses fails
    the sign test unless it underflows to zero. *)
Lemma prod_above (T a b : float) :
  (T <? a)%float = true -> (T <? b)%float = true ->
  ((a - T) * (b - T) <=? 0)%float = ((a - T) * (b - T) =? 0)%float.
Proof.
  intros Ha Hb.
  apply sub_gt_sign in Ha as [Sa Za]. apply sub_gt_sign in Hb as [Sb Zb].
  rewrite leb_zero_spec, eqb_zero_spec, mul_spec.
  rewrite (SFmul_strict _ _ _ _ Sa Sb Za Zb). reflexivity.
Qed.

(** A sample above a finite threshold followed by one at or below it: the
    product of the excesses passes the sign test, provided the first excess
    did not overflow. *)
Lemma prod_cross (T a b : float) :
  (T <? a)%float = true -> (b <=? T)%float = true ->
  (neg_infinity <? T)%float = true ->
  (a - T <? infinity)%float = true ->
  ((a - T) * (b - T) <=? 0)%float = true.
Proof.
  intros Ha Hb HT Hfin.
  pose proof (sub_gt_sign _ _ Ha) as [Sa Za].
  apply ltb_true in Hfin as (Nx & _ & Hx).
  assert (Ix : is_inf_sf (Prim2SF (a - T)) = false).
  { unfold ford in Hx. change (Prim2SF infinity) with (S754_infinity false) in Hx.
    destruct (Prim2SF (a - T)) as [? | [] | | ? ? ?];
      first [reflexivity | discriminate | cbn [ord cond_Zopp] in Hx; lia]. }
  apply ltb_true in Ha as (NT & Na & HTa).
  apply ltb_true in HT as (_ & _ & HT).
  apply leb_true in Hb as (Nb & _ & HbT).
  rewrite leb_zero_spec, mul_spec.
  destruct (SFsub_sign (Prim2SF b) (Prim2SF T)
              (Prim2SF_valid b) (Prim2SF_valid T) Nb NT) as (Hlt & _ & Heq).
  destruct (Z.eq_dec (ford b) (ford T)) as [E | E].
  - assert (Ib : is_inf_sf (Prim2SF b) = false).
    { unfold ford in *. change (Prim2SF neg_infinity) with (S754_infinity true) in HT.
      pose proof big_pos.
      pose proof (Prim2SF_valid a) as Va.
      destruct (Prim2SF b) as [| [] | |]; try reflexivity; cbn [ord cond_Zopp] in *; try lia.
      destruct (Prim2SF a) as [| [] | | sa ma ea]; try discriminate; cbn [ord cond_Zopp] in *; try lia.
      pose proof (finite_ord_bound _ _ _ Va). destruct sa; cbn [cond_Zopp] in *; lia. }
    specialize (Heq E Ib). rewrite <- sub_spec in Heq.
    pose proof (SFmul_zero_r _ _ Nx Ix Heq) as Hz.
    destruct (SF64mul (Prim2SF (a - T)) (Prim2SF (b - T))) as [[] | | |];
      try discriminate; reflexivity.
  - destruct (Hlt ltac:(unfold ford in *; lia)) as [Sb Zb].
    rewrite <- sub_spec in Sb, Zb.
    rewrite (SFmul_strict _ _ _ _ Sa Sb Za Zb). reflexivity.
Qed.


End Binary64.

(** *** Subtracting a smaller non-negative double does not overflow *)

Section Binary64Overflow.

Local Open Scope Z_scope.

Lemma shr_fexp_spec (m e : Z) (l : location) :
  0 <= m ->
  let n := Z.max 0 (fexp prec emax (Zdigits2 m + e) - e) in
  shr_m (fst (shr_fexp prec emax m e l)) = m / 2 ^ n /\
  snd (shr_fexp prec emax m e l) = e + n.
Proof.
  intros Hm n. unfold shr_fexp, shr. subst n.
  destruct (fexp prec emax (Zdigits2 m + e) - e) as [| p | p]; cbn [fst snd].
  - rewrite shr_record_of_loc_m. change (Z.max 0 0) with 0.
    rewrite Z.pow_0_r, Z.div_1_r. lia.
  - rewrite iter_shr_1_m by (rewrite shr_record_of_loc_m; lia).
    rewrite shr_record_of_loc_m.
    replace (Z.max 0 (Z.pos p)) with (Z.pos p) by lia. lia.
  - rewrite shr_record_of_loc_m.
    replace (Z.max 0 (Z.neg p)) with 0 by lia.
    rewrite Z.pow_0_r, Z.div_1_r. lia.
Qed.

Lemma shl_align_val (m : positive) (e E : Z) :
  -1074 <= e -> -1074 <= E ->
  Z.pos (fst (shl_align m e E)) * 2 ^ (snd (shl_align m e E) + 1074)
  = Z.pos m * 2 ^ (e + 1074) /\
  -1074 <= snd (shl_align m e E) <= E \/
  Z.pos (fst (shl_align m e E)) * 2 ^ (snd (shl_align m e E) + 1074)
  = Z.pos m * 2 ^ (e + 1074) /\
  snd (shl_align m e E) = e /\ e <= E.
Proof.
  intros He HE. unfold shl_align.
  destruct (E - e) as [| d | d] eqn:D; cbn [fst snd].
  - right. repeat split; lia.
  - right. repeat split; lia.
  - left. split; [| lia].
    rewrite iter_xO_pow, <- Z.mul_assoc, <- Z.pow_add_r by lia.
    f_equal; f_equal; lia.
Qed.

Lemma digits_upper (m : positive) (k : Z) :
  Z.pos m < 2 ^ k -> Z.pos (digits2_pos m) <= k.
Proof.
  intros H. pose proof (digits2_pos_bounds m) as [Hlo _].
  destruct (Z.le_gt_cases (Z.pos (digits2_pos m)) k) as [| Hgt]; [assumption |].
  exfalso.
  assert (2 ^ k <= 2 ^ (Z.pos (digits2_pos m) - 1))
    by (apply Z.pow_le_mono_r; lia).
  lia.
Qed.

Lemma pow2_pos (k : Z) : 0 <= k -> 0 < 2 ^ k.
Proof. intros. apply Z.pow_pos_nonneg; lia. Qed.

Lemma digits_val_lt (m1 m2 : positive) (e1 e2 : Z) :
  -1074 <= e1 -> -1074 <= e2 ->
  Z.pos m1 * 2 ^ (e1 + 1074) <= Z.pos m2 * 2 ^ (e2 + 1074) ->
  Z.pos (digits2_pos m1) + e1 <= Z.pos (digits2_pos m2) + e2.
Proof.
  intros He1 He2 H.
  pose proof (digits2_pos_bounds m1) as [Hlo _].
  pose proof (digits2_pos_bounds m2) as [_ Hhi].
  set (d1 := Z.pos (digits2_pos m1)) in *.
  set (d2 := Z.pos (digits2_pos m2)) in *.
  assert (D1 : 1 <= d1) by (unfold d1; lia).
  assert (D2 : 1 <= d2) by (unfold d2; lia).
  pose proof (pow2_pos (e1 + 1074) ltac:(lia)) as P1.
  pose proof (pow2_pos (e2 + 1074) ltac:(lia)) as P2.
  assert (H1 : 2 ^ (d1 - 1) * 2 ^ (e1 + 1074) <= Z.pos m1 * 2 ^ (e1 + 1074))
    by (apply Z.mul_le_mono_nonneg_r; lia).
  assert (H2 : Z.pos m2 * 2 ^ (e2 + 1074) < 2 ^ d2 * 2 ^ (e2 + 1074))
    by (apply Z.mul_lt_mono_pos_r; lia).
  rewrite <- Z.pow_add_r in H1, H2 by lia.
  destruct (Z.le_gt_cases (d1 + e1) (d2 + e2)) as [| Hgt]; [assumption |].
  exfalso.
  assert (2 ^ (d2 + (e2 + 1074)) <= 2 ^ (d1 - 1 + (e1 + 1074)))
    by (apply Z.pow_le_mono_r; lia).
  lia.
Qed.

(** A value below [2^(53+ex)] has its canonical exponent at most [ex]. *)
Lemma fexp_below (m : positive) (e ex : Z) (mx : positive) :
  -1074 <= e -> -1074 <= ex -> Z.pos mx < 2 ^ 53 ->
  Z.pos m * 2 ^ (e + 1074) < Z.pos mx * 2 ^ (ex + 1074) ->
  fexp prec emax (Z.pos (digits2_pos m) + e) <= ex.
Proof.
  intros He Hex Hmx Hlt.
  pose proof (digits2_pos_bounds m) as [Hlo _].
  set (d := Z.pos (digits2_pos m)) in *.
  assert (Hd : 1 <= d) by (unfold d; lia).
  change (fexp prec emax (d + e)) with (Z.max (d + e - 53) (-1074)).
  apply Z.max_lub; [| assumption].
  destruct (Z.le_gt_cases (d + e - 53) ex) as [| Hgt]; [assumption |].
  exfalso.
  pose proof (pow2_pos (e + 1074) ltac:(lia)) as P1.
  pose proof (pow2_pos (ex + 1074) ltac:(lia)) as P2.
  assert (H1 : 2 ^ (d - 1) * 2 ^ (e + 1074) <= Z.pos m * 2 ^ (e + 1074))
    by (apply Z.mul_le_mono_nonneg_r; lia).
  assert (H2 : Z.pos mx * 2 ^ (ex + 1074) < 2 ^ 53 * 2 ^ (ex + 1074))
    by (apply Z.mul_lt_mono_pos_r; lia).
  rewrite <- Z.pow_add_r in H1, H2 by lia.
  assert (2 ^ (53 + (ex + 1074)) <= 2 ^ (d - 1 + (e + 1074)))
    by (apply Z.pow_le_mono_r; lia).
  lia.
Qed.

Lemma div_pow2_bound (m n k : Z) :
  0 <= n -> 0 <= k -> 0 <= m < 2 ^ (n + k) -> m / 2 ^ n < 2 ^ k.
Proof.
  intros Hn Hk Hm. apply Z.div_lt_upper_bound; [apply pow2_pos; lia |].
  rewrite <- Z.pow_add_r by lia. lia.
Qed.

Lemma round_nearest_even_le (m : Z) (l : location) :
  round_nearest_even m l <= m + 1.
Proof.
  destruct l as [| []]; cbn [round_nearest_even]; try lia.
  destruct (Z.even m); lia.
Qed.

(** Rounding a value strictly below a finite double gives a finite double. *)
Lemma binary_round_aux_below (s : bool) (m : positive) (e : Z)
      (mx : positive) (ex : Z) :
  -1074 <= e -> e <= fexp prec emax (Z.pos (digits2_pos m) + e) ->
  -1074 <= ex <= 971 -> Z.pos mx < 2 ^ 53 ->
  Z.pos m * 2 ^ (e + 1074) < Z.pos mx * 2 ^ (ex + 1074) ->
  is_inf_sf (binary_round_aux prec emax s (Z.pos m) e loc_Exact) = false.
Proof.
  intros He Hcan Hex Hmx Hlt. unfold binary_round_aux.
  pose proof (shr_fexp_spec (Z.pos m) e loc_Exact ltac:(lia)) as [Hm1 He1].
  pose proof (shr_fexp_pos (Z.pos m) e loc_Exact ltac:(lia) He) as [Hp1 _].
  pose proof (fexp_below m e ex mx He ltac:(lia) Hmx Hlt) as HE.
  cbn [Zdigits2] in Hm1, He1.
  pose proof (digits2_pos_bounds m) as [_ Hhi].
  set (d := Z.pos (digits2_pos m)) in *.
  assert (Hf : fexp prec emax (d + e) = Z.max (d + e - 53) (-1074)) by reflexivity.
  set (n := Z.max 0 (fexp prec emax (d + e) - e)) in *.
  destruct (shr_fexp prec emax (Z.pos m) e loc_Exact) as [r1 e1].
  cbn [fst snd] in Hm1, He1, Hp1.
  set (m' := shr_m r1) in *.
  assert (Hn : 0 <= n) by (unfold n; lia).
  assert (He1x : e1 <= ex) by (unfold n in *; lia).
  assert (Hm'53 : m' < 2 ^ 53).
  { rewrite Hm1. apply div_pow2_bound; try lia.
    split; [lia |]. apply Z.lt_le_trans with (1 := Hhi).
    apply Z.pow_le_mono_r; unfold n; lia. }
  assert (Hval : m' * 2 ^ (e1 + 1074) <= Z.pos m * 2 ^ (e + 1074)).
  { rewrite He1. replace (e + n + 1074) with (n + (e + 1074)) by lia.
    rewrite Z.pow_add_r by lia. rewrite Z.mul_assoc.
    apply Z.mul_le_mono_nonneg_r; [apply Z.lt_le_incl, pow2_pos; lia |].
    rewrite Hm1. rewrite Z.mul_comm.
    apply Z.mul_div_le. apply pow2_pos; lia. }
  pose proof (round_nearest_even_ge m' (loc_of_shr_record r1)) as Hr1.
  pose proof (round_nearest_even_le m' (loc_of_shr_record r1)) as Hr2.
  set (m1 := round_nearest_even m' (loc_of_shr_record r1)) in *.
  assert (Hcase : m1 < 2 ^ 53 \/ (m1 = 2 ^ 53 /\ e1 < ex)).
  { destruct (Z.eq_dec e1 ex) as [-> | Hne].
    - left.
      assert (m' < Z.pos mx).
      { apply Z.mul_lt_mono_pos_r with (p := 2 ^ (ex + 1074));
          [apply pow2_pos; lia | lia]. }
      lia.
    - destruct (Z.eq_dec m1 (2 ^ 53)) as [-> | ?]; [right; split; lia | left; lia]. }
  pose proof (shr_fexp_spec m1 e1 loc_Exact ltac:(lia)) as [_ He2].
  destruct (shr_fexp prec emax m1 e1 loc_Exact) as [r2 e2]. cbn [snd] in He2.
  assert (He2x : e2 <= 971).
  { destruct m1 as [| p1 | p1]; try lia. cbn [Zdigits2] in He2.
    assert (Hf1 : fexp prec emax (Z.pos (digits2_pos p1) + e1)
                  = Z.max (Z.pos (digits2_pos p1) + e1 - 53) (-1074))
      by reflexivity.
    assert (-1074 <= e1) by (unfold n in *; lia).
    destruct Hcase as [Hlt53 | [Heq Hlt1]].
    - pose proof (digits_upper p1 53 Hlt53). lia.
    - assert (Z.pos (digits2_pos p1) <= 54).
      { apply digits_upper. rewrite Heq.
        apply Z.pow_lt_mono_r; lia. }
      lia. }
  destruct (shr_m r2) as [| p2 | p2]; cbn [is_inf_sf]; try reflexivity.
  destruct (Z.leb_spec e2 (emax - prec)) as [| Hgt]; [reflexivity |].
  change (emax - prec) with 971 in Hgt. lia.
Qed.

Lemma binary_round_below (s : bool) (m : positive) (e : Z)
      (mx : positive) (ex : Z) :
  -1074 <= e -> -1074 <= ex <= 971 -> Z.pos mx < 2 ^ 53 ->
  Z.pos m * 2 ^ (e + 1074) < Z.pos mx * 2 ^ (ex + 1074) ->
  is_inf_sf (binary_round prec emax s m e) = false.
Proof.
  intros He Hex Hmx Hlt. unfold binary_round.
  assert (HE : -1074 <= fexp prec emax (Z.pos (digits2_pos m) + e)).
  { change (fexp prec emax (Z.pos (digits2_pos m) + e))
      with (Z.max (Z.pos (digits2_pos m) + e - 53) (-1074)). lia. }
  pose proof (shl_align_val m e _ He HE) as Hs.
  destruct (shl_align m e (fexp prec emax (Z.pos (digits2_pos m) + e)))
    as [mz ez]. cbn [fst snd] in Hs.
  assert (Hv : Z.pos mz * 2 ^ (ez + 1074) = Z.pos m * 2 ^ (e + 1074)
               /\ -1074 <= ez
               /\ ez <= fexp prec emax (Z.pos (digits2_pos m) + e))
    by (destruct Hs as [(? & ?) | (? & ? & ?)]; repeat split; lia).
  destruct Hv as (Hv & Hez & Hle).
  assert (Hd : Z.pos (digits2_pos mz) + ez = Z.pos (digits2_pos m) + e).
  { apply Z.le_antisymm; apply digits_val_lt; lia. }
  apply binary_round_aux_below with (mx := mx) (ex := ex); try assumption.
  - rewrite Hd. exact Hle.
  - lia.
Qed.

(** [0 <= y < x < +oo] makes [x - y] finite. *)
Lemma SFsub_below (x y : spec_float) :
  valid_binary x = true -> valid_binary y = true ->
  is_nan_sf x = false -> is_nan_sf y = false ->
  0 <= ord y -> ord y < ord x -> ord x < big ->
  is_inf_sf (SF64sub x y) = false.
Proof.
  intros Vx Vy Nx Ny H0 Hlt Hfin. pose proof big_pos as Hb.
  destruct x as [sx | sx | | sx mx ex]; try discriminate;
    cbn [ord] in Hlt, Hfin; try lia.
  { destruct sx; cbn [cond_Zopp] in *; lia. }
  pose proof (finite_ord_bound _ _ _ Vx) as Bx.
  destruct sx; cbn [cond_Zopp] in Hlt, Hfin; [lia |].
  destruct y as [sy | sy | | sy my ey]; try discriminate; cbn [ord] in H0, Hlt.
  - reflexivity.
  - destruct sy; cbn [cond_Zopp] in *; lia.
  - pose proof (finite_ord_bound _ _ _ Vy) as By.
    destruct sy; cbn [cond_Zopp] in H0, Hlt; [lia |].
    destruct (SFsub_finite_ord _ _ _ _ _ _ Vx Vy) as (D & ez & Hez & Hp & -> & HD).
    cbn [ord cond_Zopp] in HD.
    pose proof (valid_finite _ _ _ Vx) as (Hex & Hmx & _).
    destruct D as [| p | p]; cbn [binary_normalize]; try reflexivity; [| nia].
    apply binary_round_below with (mx := mx) (ex := ex); try assumption. lia.
Qed.

Lemma sub_below_finite (a T : float) :
  (0 <=? T)%float = true -> (T <? a)%float = true ->
  (a <? infinity)%float = true ->
  (a - T <? infinity)%float = true.
Proof.
  intros H0 Hlt Hfin.
  apply leb_true in H0 as (_ & NT & H0).
  apply ltb_true in Hlt as (_ & Na & Hlt).
  apply ltb_true in Hfin as (_ & _ & Hfin).
  unfold ford in *.
  change (Prim2SF 0%float) with (S754_zero false) in H0.
  change (Prim2SF infinity) with (S754_infinity false) in Hfin.
  cbn [ord cond_Zopp] in H0, Hfin.
  pose proof (SFsub_below _ _ (Prim2SF_valid a) (Prim2SF_valid T) Na NT H0 Hlt Hfin)
    as Hinf.
  pose proof (SFsub_sign _ _ (Prim2SF_valid a) (Prim2SF_valid T) Na NT)
    as (_ & Hpos & _).
  destruct (Hpos Hlt) as [Hs Hz].
  rewrite <- sub_spec in Hinf, Hs, Hz.
  pose proof (Prim2SF_valid (a - T)) as V.
  apply ltb_true. unfold fnan, ford.
  change (Prim2SF infinity) with (S754_infinity false).
  pose proof big_pos as Hb.
  destruct (Prim2SF (a - T)) as [? | ? | | sr mr er]; try discriminate;
    (split; [reflexivity | split; [reflexivity |]]); cbn [ord cond_Zopp].
  pose proof (finite_ord_bound _ _ _ V).
  destruct sr; cbn [cond_Zopp]; lia.
Qed.

End Binary64Overflow.

Section Magnitudes.

Local Open Scope Z_scope.

(** The absolute value of a double that is not NaN is at or above [+0]. *)
Lemma abs_nonneg (x : float) :
  fnan x = false -> (0 <=? abs x)%float = true.
Proof.
  unfold fnan. intros H. rewrite leb_spec, abs_spec.
  change (Prim2SF 0%float) with (S754_zero false).
  destruct (Prim2SF x) as [? | ? | | ? ? ?]; try discriminate; reflexivity.
Qed.

Lemma abs_nan (x : float) : fnan (abs x) = fnan x.
Proof.
  unfold fnan. rewrite abs_spec. destruct (Prim2SF x); reflexivity.
Qed.

Lemma nonneg_above_neg_infinity (T : float) :
  (0 <=? T)%float = true -> (neg_infinity <? T)%float = true.
Proof.
  intros H. apply leb_true in H as (_ & NT & H).
  apply ltb_true. repeat split; auto.
  unfold ford in *. change (Prim2SF 0%float) with (S754_zero false) in H.
  change (Prim2SF neg_infinity) with (S754_infinity true).
  cbn [ord cond_Zopp] in *. pose proof big_pos. lia.
Qed.

End Magnitudes.

(** *** Excesses over a threshold of at least [2^-480] do not underflow *)

Section Binary64Underflow.

Local Open Scope Z_scope.

Lemma digits_lower (q : positive) (j : Z) :
  0 <= j -> 2 ^ j <= Z.pos q -> j + 1 <= Z.pos (digits2_pos q).
Proof.
  intros Hj H. pose proof (digits2_pos_bounds q) as [_ Hhi].
  destruct (Z.le_gt_cases (j + 1) (Z.pos (digits2_pos q))) as [| Hgt];
    [assumption |].
  exfalso.
  assert (2 ^ Z.pos (digits2_pos q) <= 2 ^ j) by (apply Z.pow_le_mono_r; lia).
  lia.
Qed.

(** Shifting right by fewer bits than the mantissa has keeps
    [digits + exponent]. *)
Lemma digits_shr (m : positive) (n : Z) :
  0 <= n <= Z.pos (digits2_pos m) - 1 ->
  exists q, Z.pos m / 2 ^ n = Z.pos q /\
            Z.pos (digits2_pos m) - n <= Z.pos (digits2_pos q).
Proof.
  intros Hn. pose proof (digits2_pos_bounds m) as [Hlo _].
  set (d := Z.pos (digits2_pos m)) in *.
  pose proof (pow2_pos n ltac:(lia)) as Pn.
  assert (Hq : 2 ^ (d - 1 - n) <= Z.pos m / 2 ^ n).
  { apply Z.div_le_lower_bound; [assumption |].
    rewrite <- Z.pow_add_r by lia.
    replace (n + (d - 1 - n)) with (d - 1) by lia. assumption. }
  pose proof (pow2_pos (d - 1 - n) ltac:(lia)) as Pq.
  destruct (Z.pos m / 2 ^ n) as [| q | q] eqn:E; try lia.
  exists q. split; [reflexivity |].
  pose proof (digits_lower q (d - 1 - n) ltac:(lia) Hq). lia.
Qed.

Lemma digits_mono (m1 m2 : positive) :
  Z.pos m1 <= Z.pos m2 -> Z.pos (digits2_pos m1) <= Z.pos (digits2_pos m2).
Proof.
  intros H.
  pose proof (digits_val_lt m1 m2 0 0 ltac:(lia) ltac:(lia)) as L.
  pose proof (pow2_pos (0 + 1074) ltac:(lia)).
  specialize (L ltac:(apply Z.mul_le_mono_nonneg_r; lia)). lia.
Qed.

(** One shift of [shr_fexp], for a mantissa whose leading bit sits above
    the smallest subnormal. *)
Lemma shr_fexp_mag (m : positive) (e : Z) (l : location) :
  -1073 <= Z.pos (digits2_pos m) + e ->
  exists q, shr_m (fst (shr_fexp prec emax (Z.pos m) e l)) = Z.pos q /\
            -1074 <= snd (shr_fexp prec emax (Z.pos m) e l) /\
            Z.pos (digits2_pos m) + e
            <= Z.pos (digits2_pos q) + snd (shr_fexp prec emax (Z.pos m) e l).
Proof.
  intros Hmag.
  pose proof (shr_fexp_spec (Z.pos m) e l ltac:(lia)) as [Hm He].
  cbn [Zdigits2] in Hm, He.
  set (d := Z.pos (digits2_pos m)) in *.
  assert (Hf : fexp prec emax (d + e) = Z.max (d + e - 53) (-1074)) by reflexivity.
  set (n := Z.max 0 (fexp prec emax (d + e) - e)) in *.
  assert (Hd : 1 <= d) by (unfold d; lia).
  destruct (digits_shr m n) as (q & Hq & Hdq); [fold d; unfold n; lia |].
  exists q. rewrite Hm, He. fold d in Hdq. repeat split; try assumption.
  - unfold n. lia.
  - lia.
Qed.

(** Rounding keeps [digits + exponent] from falling, so a value whose
    leading bit sits above the smallest subnormal does not round to zero. *)
Lemma binary_round_aux_mag (s : bool) (m : positive) (e : Z) (l : location) :
  -1073 <= Z.pos (digits2_pos m) + e ->
  match binary_round_aux prec emax s (Z.pos m) e l with
  | S754_finite _ mr er =>
      Z.pos (digits2_pos m) + e <= Z.pos (digits2_pos mr) + er
  | S754_infinity _ => True
  | _ => False
  end.
Proof.
  intros Hmag. unfold binary_round_aux.
  destruct (shr_fexp_mag m e l Hmag) as (q1 & Hq1 & He1 & Hm1).
  destruct (shr_fexp prec emax (Z.pos m) e l) as [r1 e1].
  cbn [fst snd] in Hq1, He1, Hm1. rewrite Hq1.
  pose proof (round_nearest_even_ge (Z.pos q1) (loc_of_shr_record r1)) as Hr.
  destruct (round_nearest_even (Z.pos q1) (loc_of_shr_record r1))
    as [| m1 | m1]; try lia.
  pose proof (digits_mono q1 m1 Hr) as Hd1.
  destruct (shr_fexp_mag m1 e1 loc_Exact ltac:(lia)) as (q2 & Hq2 & He2 & Hm2).
  destruct (shr_fexp prec emax (Z.pos m1) e1 loc_Exact) as [r2 e2].
  cbn [fst snd] in Hq2, He2, Hm2. rewrite Hq2.
  destruct (e2 <=? emax - prec); [lia | exact I].
Qed.

Lemma binary_round_mag (s : bool) (m : positive) (e : Z) :
  -1074 <= e ->
  match binary_round prec emax s m e with
  | S754_finite _ mr er =>
      Z.pos (digits2_pos m) + e <= Z.pos (digits2_pos mr) + er
  | S754_infinity _ => True
  | _ => False
  end.
Proof.
  intros He. unfold binary_round.
  assert (HE : -1074 <= fexp prec emax (Z.pos (digits2_pos m) + e)).
  { change (fexp prec emax (Z.pos (digits2_pos m) + e))
      with (Z.max (Z.pos (digits2_pos m) + e - 53) (-1074)). lia. }
  pose proof (shl_align_val m e _ He HE) as Hs.
  destruct (shl_align m e (fexp prec emax (Z.pos (digits2_pos m) + e)))
    as [mz ez]. cbn [fst snd] in Hs.
  assert (Hv : Z.pos mz * 2 ^ (ez + 1074) = Z.pos m * 2 ^ (e + 1074)
               /\ -1074 <= ez)
    by (destruct Hs as [(? & ?) | (? & ? & ?)]; split; lia).
  destruct Hv as (Hv & Hez).
  assert (Hd : Z.pos (digits2_pos mz) + ez = Z.pos (digits2_pos m) + e).
  { apply Z.le_antisymm; apply digits_val_lt; lia. }
  pose proof (binary_round_aux_mag s mz ez loc_Exact) as H.
  rewrite Hd in H. apply H.
  assert (1 <= Z.pos (digits2_pos m)) by lia. lia.
Qed.

(** A positive finite double of value at least [2^q] has exponent at least
    [q - 52]. *)
Lemma exp_lower (m : positive) (e q : Z) :
  valid_binary (S754_finite false m e) = true ->
  -1074 <= q ->
  2 ^ (q + 1074) <= Z.pos m * 2 ^ (e + 1074) ->
  q - 52 <= e.
Proof.
  intros V Hq H. apply valid_finite in V as (He & Hm & _).
  pose proof (pow2_pos (e + 1074) ltac:(lia)) as P.
  assert (H2 : Z.pos m * 2 ^ (e + 1074) < 2 ^ 53 * 2 ^ (e + 1074))
    by (apply Z.mul_lt_mono_pos_r; lia).
  rewrite <- Z.pow_add_r in H2 by lia.
  destruct (Z.le_gt_cases (q - 52) e) as [| Hgt]; [assumption |].
  exfalso.
  assert (2 ^ (53 + (e + 1074)) <= 2 ^ (q + 1074))
    by (apply Z.pow_le_mono_r; lia).
  lia.
Qed.

(** The difference of two doubles above [2^q] is at least [2^(q-52)]. *)
Lemma SFsub_mag (x y : spec_float) (q : Z) :
  valid_binary x = true -> valid_binary y = true ->
  is_nan_sf x = false -> is_nan_sf y = false ->
  -1074 <= q -> 2 ^ (q + 1074) <= ord y -> ord y < ord x ->
  match SF64sub x y with
  | S754_finite _ m e => q - 51 <= Z.pos (digits2_pos m) + e
  | _ => True
  end.
Proof.
  intros Vx Vy Nx Ny Hq Hy Hlt. pose proof big_pos as Hb.
  pose proof (pow2_pos (q + 1074) ltac:(lia)) as Pq.
  destruct y as [sy | sy | | sy my ey]; try discriminate; cbn [ord] in Hy, Hlt;
    try lia.
  { destruct x as [sx | sx | | sx mx ex]; try discriminate.
    - exact I.
    - destruct sx, sy; exact I.
    - unfold SF64sub; cbn [SFsub]. exact I. }
  pose proof (finite_ord_bound _ _ _ Vy) as By.
  destruct sy; cbn [cond_Zopp] in Hy, Hlt; [lia |].
  destruct x as [sx | sx | | sx mx ex]; try discriminate; cbn [ord] in Hlt;
    try lia.
  { exact I. }
  pose proof (finite_ord_bound _ _ _ Vx) as Bx.
  destruct sx; cbn [cond_Zopp] in Hlt; [lia |].
  pose proof (exp_lower my ey q Vy Hq Hy) as Hey.
  pose proof (exp_lower mx ex q Vx Hq ltac:(lia)) as Hex.
  unfold SF64sub; cbn [SFsub cond_Zopp].
  set (ez := Z.min ex ey).
  set (D := Z.pos (fst (shl_align mx ex ez)) - Z.pos (fst (shl_align my ey ez))).
  assert (Hez : -1074 <= ez).
  { apply valid_finite in Vx as (? & _). apply valid_finite in Vy as (? & _).
    unfold ez. lia. }
  assert (HD : D * 2 ^ (ez + 1074)
               = Z.pos mx * 2 ^ (ex + 1074) - Z.pos my * 2 ^ (ey + 1074)).
  { unfold D. rewrite Z.mul_sub_distr_r.
    rewrite !shl_align_ord by (unfold ez; lia). reflexivity. }
  pose proof (pow2_pos (ez + 1074) ltac:(lia)) as Pz.
  destruct D as [| p | p]; try nia.
  cbn [binary_normalize].
  pose proof (binary_round_mag false p ez Hez) as H.
  destruct (binary_round prec emax false p ez) as [? | ? | | sr mr er];
    try exact I.
  assert (1 <= Z.pos (digits2_pos p)) by lia.
  unfold ez in *. lia.
Qed.

(** The product of two finite doubles of magnitude at least [2^(K-1)] with
    [2K >= -1072] is not zero. *)
Lemma SFmul_nonzero (sx sy : bool) (mx my : positive) (ex ey K : Z) :
  K <= Z.pos (digits2_pos mx) + ex -> K <= Z.pos (digits2_pos my) + ey ->
  -1072 <= 2 * K ->
  is_zero_sf (SF64mul (S754_finite sx mx ex) (S754_finite sy my ey)) = false.
Proof.
  intros Hx Hy HK. unfold SF64mul; cbn [SFmul].
  pose proof (digits2_pos_bounds mx) as [Lx _].
  pose proof (digits2_pos_bounds my) as [Ly _].
  set (dx := Z.pos (digits2_pos mx)) in *.
  set (dy := Z.pos (digits2_pos my)) in *.
  assert (Dx : 1 <= dx) by (unfold dx; lia).
  assert (Dy : 1 <= dy) by (unfold dy; lia).
  assert (Hp : 2 ^ (dx + dy - 2) <= Z.pos (mx * my)).
  { replace (dx + dy - 2) with ((dx - 1) + (dy - 1)) by lia.
    rewrite Z.pow_add_r by lia. rewrite Pos2Z.inj_mul.
    apply Z.mul_le_mono_nonneg; try assumption;
      apply Z.lt_le_incl, pow2_pos; lia. }
  pose proof (digits_lower (mx * my) (dx + dy - 2) ltac:(lia) Hp) as Hd.
  pose proof (binary_round_aux_mag (xorb sx sy) (mx * my) (ex + ey) loc_Exact
                ltac:(lia)) as H.
  destruct (binary_round_aux prec emax (xorb sx sy) (Z.pos (mx * my)) (ex + ey)
                             loc_Exact); try reflexivity; contradiction.
Qed.

End Binary64Underflow.

Section UnderflowSafe.

Local Open Scope Z_scope.

Lemma ford_underflow_safe : ford underflow_safe = 2 ^ (-480 + 1074).
Proof. vm_compute. reflexivity. Qed.

(** Above a threshold of at least [2^-480] the product of two excesses is
    never rounded to zero. *)
Lemma excess_product_nonzero (T a b : float) :
  (underflow_safe <=? T)%float = true ->
  (T <? a)%float = true -> (T <? b)%float = true ->
  ((a - T) * (b - T) =? 0)%float = false.
Proof.
  intros HT Ha Hb.
  pose proof (sub_gt_sign _ _ Ha) as [Sa Za].
  pose proof (sub_gt_sign _ _ Hb) as [Sb Zb].
  apply leb_true in HT as (_ & NT & HT). rewrite ford_underflow_safe in HT.
  apply ltb_true in Ha as (_ & Na & Ha).
  apply ltb_true in Hb as (_ & Nb & Hb).
  pose proof (SFsub_mag _ _ (-480) (Prim2SF_valid a) (Prim2SF_valid T)
                Na NT ltac:(lia) HT Ha) as Ma.
  pose proof (SFsub_mag _ _ (-480) (Prim2SF_valid b) (Prim2SF_valid T)
                Nb NT ltac:(lia) HT Hb) as Mb.
  rewrite <- sub_spec in Ma, Mb.
  rewrite eqb_zero_spec, mul_spec.
  destruct (Prim2SF (a - T)) as [? | sx | | sx mx ex]; try discriminate;
    destruct (Prim2SF (b - T)) as [? | sy | | sy my ey]; try discriminate;
    try reflexivity.
  apply SFmul_nonzero with (K := -531); lia.
Qed.

End UnderflowSafe.

Section DifferenceSign.

Local Open Scope Z_scope.

(** [a <= b] with [a] above [-oo] and [b] below [+oo]: the rounded
    difference [a - b] is negative or zero. *)
Lemma sub_le_nonpos (a b : float) :
  (a <=? b)%float = true ->
  (neg_infinity <? a)%float = true -> (b <? infinity)%float = true ->
  (a - b <=? 0)%float = true.
Proof.
  intros Hle Ha Hb.
  apply leb_true in Hle as (Na & Nb & Hle).
  apply ltb_true in Ha as (_ & _ & Ha).
  apply ltb_true in Hb as (_ & _ & Hb).
  unfold ford in *.
  change (Prim2SF neg_infinity) with (S754_infinity true) in Ha.
  change (Prim2SF infinity) with (S754_infinity false) in Hb.
  cbn [ord cond_Zopp] in Ha, Hb.
  rewrite leb_zero_spec, sub_spec.
  destruct (SFsub_sign _ _ (Prim2SF_valid a) (Prim2SF_valid b) Na Nb)
    as (Hlt & _ & Heq).
  destruct (Z.eq_dec (ord (Prim2SF a)) (ord (Prim2SF b))) as [E | E].
  - assert (Ia : is_inf_sf (Prim2SF a) = false).
    { destruct (Prim2SF a) as [? | [] | | ? ? ?]; try reflexivity;
        cbn [ord cond_Zopp] in *; lia. }
    specialize (Heq E Ia).
    destruct (SF64sub (Prim2SF a) (Prim2SF b)) as [[] | ? | | ? ? ?];
      try discriminate; reflexivity.
  - destruct (Hlt ltac:(lia)) as [Hs _]. rewrite Hs. reflexivity.
Qed.

(** A finite excess over the threshold comes from a finite sample. *)
Lemma nonneg_lt_trans (a b : float) :
  (0 <=? a)%float = true -> (a <? b)%float = true -> (0 <=? b)%float = true.
Proof.
  intros H1 H2. apply leb_true in H1 as (N0 & Na & H1).
  apply ltb_true in H2 as (_ & Nb & H2). apply leb_true.
  repeat split; auto. lia.
Qed.

End DifferenceSign.

(** *** Case analysis on the sign test *)

Section Binary64Cases.

Local Open Scope Z_scope.

Lemma flt_fle (a b : float) :
  (a <? b)%float = true -> (a <=? b)%float = true.
Proof.
  intros H. apply ltb_true in H as (Na & Nb & H). apply leb_true.
  repeat split; auto. lia.
Qed.

(** Two doubles that are not NaN are ordered or sit at the same place. *)
Lemma float_trichotomy (a b : float) :
  fnan a = false -> fnan b = false ->
  (a <? b)%float = true \/ (b <? a)%float = true \/ ford a = ford b.
Proof.
  intros Na Nb. destruct (Z.lt_trichotomy (ford a) (ford b)) as [H | [H | H]].
  - left. apply ltb_true. auto.
  - right. right. exact H.
  - right. left. apply ltb_true. auto.
Qed.

(** Two samples below the threshold: the product of their excesses fails
    the sign test unless it underflows to zero. *)
Lemma prod_below (T a b : float) :
  (a <? T)%float = true -> (b <? T)%float = true ->
  ((a - T) * (b - T) <=? 0)%float = ((a - T) * (b - T) =? 0)%float.
Proof.
  intros Ha Hb.
  apply sub_lt_sign in Ha as [Sa Za]. apply sub_lt_sign in Hb as [Sb Zb].
  rewrite leb_zero_spec, eqb_zero_spec, mul_spec.
  rewrite (SFmul_strict _ _ _ _ Sa Sb Za Zb). reflexivity.
Qed.

Lemma SFsub_nan (x y : spec_float) :
  is_nan_sf x = true \/ is_nan_sf y = true ->
  is_nan_sf (SF64sub x y) = true.
Proof.
  intros [H | H]; destruct x; try discriminate; destruct y; try discriminate;
    reflexivity.
Qed.

(** A difference of two doubles at the same place is zero, or NaN when both
    are the same infinity. *)
Lemma SFsub_same_ord (x y : spec_float) :
  valid_binary x = true -> valid_binary y = true ->
  is_nan_sf x = false -> is_nan_sf y = false ->
  ord x = ord y ->
  is_zero_sf (SF64sub x y) = true \/ is_nan_sf (SF64sub x y) = true.
Proof.
  intros Vx Vy Nx Ny E.
  destruct (is_inf_sf x) eqn:Ix.
  - right. pose proof big_pos as Hb.
    destruct x as [| sx | |]; try discriminate.
    destruct y as [sy | sy | | sy my ey]; try discriminate; cbn [ord] in E.
    + destruct sx; cbn [cond_Zopp] in E; lia.
    + destruct sx, sy; cbn [cond_Zopp] in E; try lia; reflexivity.
    + pose proof (finite_ord_bound _ _ _ Vy).
      destruct sx, sy; cbn [cond_Zopp] in E; lia.
  - left. apply (SFsub_sign x y); assumption.
Qed.

Lemma SFmul_degenerate (x y : spec_float) :
  (is_zero_sf x = true \/ is_nan_sf x = true) \/
  (is_zero_sf y = true \/ is_nan_sf y = true) ->
  is_zero_sf (SF64mul x y) = true \/ is_nan_sf (SF64mul x y) = true.
Proof.
  intros [[H | H] | [H | H]];
    destruct x; try discriminate; destruct y; try discriminate;
    cbn; auto.
Qed.

(** A product of excesses that passes the sign test without being zero
    comes from two samples strictly on opposite sides of the threshold. *)
Lemma prod_negative_sides (T a b : float) :
  ((a - T) * (b - T) <=? 0)%float = true ->
  ((a - T) * (b - T) =? 0)%float = false ->
  ((T <? a)%float = true /\ (b <? T)%float = true) \/
  ((a <? T)%float = true /\ (T <? b)%float = true).
Proof.
  intros Hle Hnz.
  assert (Hdeg : forall u v : float,
             is_zero_sf (SF64mul (Prim2SF u) (Prim2SF v)) = true \/
             is_nan_sf (SF64mul (Prim2SF u) (Prim2SF v)) = true ->
             (u * v <=? 0)%float = true -> (u * v =? 0)%float = false -> False).
  { intros u v [Hz | Hn] H1 H2.
    - rewrite eqb_zero_spec, mul_spec, Hz in H2. discriminate.
    - rewrite leb_zero_spec, mul_spec in H1.
      destruct (SF64mul (Prim2SF u) (Prim2SF v)); try discriminate. }
  assert (Hsub : forall u : float,
             fnan u = true \/ fnan T = true \/
             (fnan u = false /\ fnan T = false /\ ford u = ford T) ->
             is_zero_sf (Prim2SF (u - T)) = true \/
             is_nan_sf (Prim2SF (u - T)) = true).
  { intros u [H | [H | (Nu & NT & E)]]; rewrite sub_spec.
    - right. apply SFsub_nan. auto.
    - right. apply SFsub_nan. auto.
    - apply SFsub_same_ord; auto using Prim2SF_valid. }
  destruct (fnan T) eqn:NT.
  { exfalso. apply (Hdeg _ _ (SFmul_degenerate _ _ (or_introl (Hsub a ltac:(auto))))
                      Hle Hnz). }
  destruct (fnan a) eqn:Na.
  { exfalso. apply (Hdeg _ _ (SFmul_degenerate _ _ (or_introl (Hsub a ltac:(auto))))
                      Hle Hnz). }
  destruct (fnan b) eqn:Nb.
  { exfalso. apply (Hdeg _ _ (SFmul_degenerate _ _ (or_intror (Hsub b ltac:(auto))))
                      Hle Hnz). }
  destruct (float_trichotomy a T Na NT) as [HaT | [HaT | HaT]];
    destruct (float_trichotomy b T Nb NT) as [HbT | [HbT | HbT]].
  - rewrite prod_below in Hle by assumption. congruence.
  - right. auto.
  - exfalso. apply (Hdeg _ _ (SFmul_degenerate _ _ (or_intror (Hsub b ltac:(auto))))
                      Hle Hnz).
  - left. auto.
  - rewrite prod_above in Hle by assumption. congruence.
  - exfalso. apply (Hdeg _ _ (SFmul_degenerate _ _ (or_intror (Hsub b ltac:(auto))))
                      Hle Hnz).
  - exfalso. apply (Hdeg _ _ (SFmul_degenerate _ _ (or_introl (Hsub a ltac:(auto))))
                      Hle Hnz).
  - exfalso. apply (Hdeg _ _ (SFmul_degenerate _ _ (or_introl (Hsub a ltac:(auto))))
                      Hle Hnz).
  - exfalso. apply (Hdeg _ _ (SFmul_degenerate _ _ (or_introl (Hsub a ltac:(auto))))
                      Hle Hnz).
Qed.

(** With a NaN threshold neither form of the sign-change test passes. *)
Lemma nan_threshold_tests (T a b : float) :
  fnan T = true ->
  ((a - T) * (b - T) <=? 0)%float = false /\ (a <=? T)%float = false.
Proof.
  intros NT. split.
  - rewrite leb_zero_spec, mul_spec, !sub_spec.
    unfold fnan in NT. destruct (Prim2SF T); try discriminate.
    destruct (Prim2SF a), (Prim2SF b); reflexivity.
  - rewrite leb_ord, NT. cbn [negb]. rewrite andb_false_r. reflexivity.
Qed.

(** The magnitude does not depend on the sign. *)
Lemma abs_opp (x : float) : abs (- x) = abs x.
Proof.
  apply Prim2SF_inj. rewrite !abs_spec, opp_spec.
  destruct (Prim2SF x); reflexivity.
Qed.

End Binary64Cases.

(** * Facts about the array operations *)

Section ArrayFacts.

Context {A B C : Type}.

Lemma zip_with_length (f : A -> B -> C) (a : list A) (b : list B) :
  length (Np.zip_with f a b) = Nat.min (length a) (length b).
Proof.
  revert b. induction a as [| x a IH]; intros [| y b]; cbn; auto.
Qed.

Lemma zip_with_nth (f : A -> B -> C) (a : list A) (b : list B)
      (i : nat) (da : A) (db : B) (dc : C) :
  (i < length a)%nat -> (i < length b)%nat ->
  nth i (Np.zip_with f a b) dc = f (nth i a da) (nth i b db).
Proof.
  revert b i. induction a as [| x a IH]; intros [| y b] [| i]; cbn; intros;
    try lia; auto. apply IH; lia.
Qed.

Lemma select_length_eq (m : list bool) :
  forall (a : list A) (b : list B),
    length a = length b ->
    length (Np.select a m) = length (Np.select b m).
Proof.
  induction m as [| c m IH]; intros [| x a] [| y b] H; cbn in *;
    try discriminate; auto.
  destruct c; cbn; auto.
Qed.

Lemma select_app (a1 a2 : list A) (m1 m2 : list bool) :
  length a1 = length m1 ->
  Np.select (a1 ++ a2) (m1 ++ m2) = Np.select a1 m1 ++ Np.select a2 m2.
Proof.
  revert m1. induction a1 as [| x a1 IH]; intros [| c m1] H; cbn in *;
    try discriminate; auto.
  destruct c; cbn; rewrite IH by lia; reflexivity.
Qed.

Lemma select_all_false (a : list A) (m : list bool) :
  Forall (fun c => c = false) m -> Np.select a m = [].
Proof.
  intros H. revert a. induction H as [| c m Hc _ IH]; intros [| x a]; cbn; auto.
  rewrite Hc. apply IH.
Qed.

Lemma select_map_Forall (f : A -> bool) (a : list A) :
  Forall (fun x => f x = true) (Np.select a (map f a)).
Proof.
  induction a as [| x a IH]; cbn; auto.
  destruct (f x) eqn:E; auto.
Qed.

End ArrayFacts.

Lemma nonzero_from_nil (s : nat) (m : list bool) :
  Np.nonzero_from s m = [] <->
  forall i, (i < length m)%nat -> nth i m false = false.
Proof.
  revert s. induction m as [| b m IH]; intros s; cbn.
  - split; auto. intros _ i Hi. lia.
  - destruct b.
    + split; [discriminate |]. intros H. specialize (H 0%nat ltac:(lia)). discriminate.
    + rewrite IH. split.
      * intros H [| i] Hi; auto. apply H. lia.
      * intros H i Hi. apply (H (S i)). lia.
Qed.

Lemma nonzero_from_first (s : nat) (m : list bool) (i : nat) :
  (i < length m)%nat -> nth i m false = true ->
  (forall j, (j < i)%nat -> nth j m false = false) ->
  exists rest, Np.nonzero_from s m = (s + i)%nat :: rest.
Proof.
  revert s i. induction m as [| b m IH]; intros s i Hi Ht Hf; cbn in *; [lia |].
  destruct i as [| i].
  - rewrite Ht. rewrite Nat.add_0_r. eauto.
  - rewrite (Hf 0%nat ltac:(lia)).
    destruct (IH (S s) i) as [rest Hr]; try lia; auto.
    + intros j Hj. apply (Hf (S j)). lia.
    + exists rest. rewrite Hr. f_equal. lia.
Qed.

Lemma nonzero_from_head (s : nat) (m : list bool) (j : nat) (rest : list nat) :
  Np.nonzero_from s m = j :: rest ->
  exists i, j = (s + i)%nat /\ (i < length m)%nat /\ nth i m false = true /\
            forall k, (k < i)%nat -> nth k m false = false.
Proof.
  revert s. induction m as [| b m IH]; intros s H; cbn in *; [discriminate |].
  destruct b.
  - injection H as <- _. exists 0%nat. repeat split; try lia. 
  - apply IH in H as (i & -> & Hi & Ht & Hf).
    exists (S i). repeat split; try lia; auto.
    intros [| k] Hk; auto. apply Hf. lia.
Qed.

(** * The masks of the code compute the indicators of the specification *)

Section MaskFacts.

Variable threshold : float.

Lemma nth_slice_from {A} (k i : nat) (a : list A) (d : A) :
  nth i (Np.slice_from k a) d = nth (i + k) a d.
Proof.
  unfold Np.slice_from. rewrite nth_skipn. f_equal. lia.
Qed.

Lemma nth_slice_to_neg {A} (k i : nat) (a : list A) (d : A) :
  (i + k < length a)%nat -> nth i (Np.slice_to_neg k a) d = nth i a d.
Proof.
  unfold Np.slice_to_neg. intros H. rewrite nth_firstn.
  destruct (Nat.ltb_spec i (length a - k)); [reflexivity | lia].
Qed.

Lemma slice_lengths {A} (k : nat) (a : list A) :
  length (Np.slice_from k a) = (length a - k)%nat /\
  length (Np.slice_to_neg k a) = (length a - k)%nat /\
  length (Np.slice_last k a) = Nat.min k (length a).
Proof.
  unfold Np.slice_from, Np.slice_to_neg, Np.slice_last.
  rewrite !length_skipn, length_firstn. lia.
Qed.

Lemma tail_mask_nth (k i : nat) (Ip : list float) :
  (length Ip - k <= i < length Ip)%nat ->
  nth (i - (length Ip - k)) (tail_mask threshold k Ip) false
  = (nth i Ip 0 <=? threshold).
Proof.
  intros H. unfold tail_mask.
  destruct (slice_lengths k Ip) as (_ & _ & Hl).
  rewrite nth_indep with (d' := 0 <=? threshold)
    by (rewrite length_map; lia).
  pose proof (map_nth (fun x => x <=? threshold) (Np.slice_last k Ip) 0
                      (i - (length Ip - k))) as E.
  cbv beta in E. rewrite E. unfold Np.slice_last.
  change (skipn (length Ip - k) Ip) with (Np.slice_from (length Ip - k) Ip).
  rewrite nth_slice_from. f_equal. f_equal. lia.
Qed.

Lemma delta_mask_length (k : nat) (Ip : list float) :
  length (delta_mask threshold k Ip) = length Ip.
Proof.
  unfold delta_mask, tail_mask.
  destruct (slice_lengths k Ip) as (H1 & H2 & H3).
  rewrite length_app, zip_with_length, length_map. lia.
Qed.

Lemma delta_mask_nth (k i : nat) (Ip : list float) :
  (i < length Ip)%nat ->
  nth i (delta_mask threshold k Ip) false =
  if (i + k <? length Ip)%nat
  then nth (i + k) Ip 0 - nth i Ip 0 <=? 0
  else nth i Ip 0 <=? threshold.
Proof.
  intros Hi. unfold delta_mask.
  destruct (slice_lengths k Ip) as (H1 & H2 & _).
  set (z := Np.zip_with _ _ _).
  assert (Hz : length z = (length Ip - k)%nat).
  { unfold z. rewrite zip_with_length. lia. }
  destruct (Nat.ltb_spec (i + k) (length Ip)) as [Hlt | Hge].
  - rewrite app_nth1 by lia. unfold z.
    rewrite zip_with_nth with (da := 0) (db := 0) by lia.
    rewrite nth_slice_from, nth_slice_to_neg by lia. reflexivity.
  - rewrite app_nth2 by lia. rewrite Hz. apply tail_mask_nth. lia.
Qed.

Lemma delta_prod_mask_length (Ip : list float) :
  length (delta_prod_mask threshold Ip) = length Ip.
Proof.
  unfold delta_prod_mask, tail_mask.
  destruct (slice_lengths 1 Ip) as (H1 & H2 & H3).
  rewrite length_app, zip_with_length, length_map. lia.
Qed.

Lemma delta_prod_mask_nth (i : nat) (Ip : list float) :
  (i < length Ip)%nat ->
  nth i (delta_prod_mask threshold Ip) false = indicator_A threshold Ip i.
Proof.
  intros Hi. unfold delta_prod_mask, indicator_A, sample.
  destruct (slice_lengths 1 Ip) as (H1 & H2 & _).
  set (z := Np.zip_with _ _ _).
  assert (Hz : length z = (length Ip - 1)%nat).
  { unfold z. rewrite zip_with_length. lia. }
  destruct (Nat.ltb_spec (S i) (length Ip)) as [Hlt | Hge].
  - rewrite app_nth1 by lia. unfold z.
    rewrite zip_with_nth with (da := 0) (db := 0) by lia.
    rewrite nth_slice_from, nth_slice_to_neg by lia.
    rewrite Nat.add_1_r. reflexivity.
  - rewrite app_nth2 by lia. rewrite Hz. apply tail_mask_nth. lia.
Qed.

Lemma delta_1_mask_nth (i : nat) (Ip : list float) :
  (i < length Ip)%nat ->
  nth i (delta_1_mask threshold Ip) false = indicator_B threshold Ip i.
Proof.
  intros Hi. unfold delta_1_mask, indicator_B, sample.
  rewrite delta_mask_nth by assumption. rewrite Nat.add_1_r. reflexivity.
Qed.

Lemma delta_8_mask_nth (i : nat) (Ip : list float) :
  (i < length Ip)%nat ->
  nth i (delta_8_mask threshold Ip) false = indicator_C threshold Ip i.
Proof.
  intros Hi. unfold delta_8_mask, indicator_C, sample.
  apply delta_mask_nth. assumption.
Qed.

Lemma all_masks_length (Ip : list float) :
  length (all_masks threshold Ip) = length Ip.
Proof.
  unfold all_masks, delta_1_mask, delta_8_mask.
  rewrite !zip_with_length, delta_prod_mask_length, !delta_mask_length. lia.
Qed.

(** The refinement: entry [i] of the combined mask is [A[i] && B[i] && C[i]]. *)
Lemma all_masks_nth (i : nat) (Ip : list float) :
  (i < length Ip)%nat ->
  nth i (all_masks threshold Ip) false = met threshold Ip i.
Proof.
  intros Hi. unfold all_masks, met.
  rewrite zip_with_nth with (da := false) (db := false).
  - rewrite zip_with_nth with (da := false) (db := false).
    + rewrite delta_prod_mask_nth, delta_1_mask_nth, delta_8_mask_nth by assumption.
      reflexivity.
    + rewrite delta_prod_mask_length. assumption.
    + unfold delta_1_mask. rewrite delta_mask_length. assumption.
  - rewrite zip_with_length, delta_prod_mask_length.
    unfold delta_1_mask. rewrite delta_mask_length. lia.
  - unfold delta_8_mask. rewrite delta_mask_length. assumption.
Qed.

Lemma cond_met_nil (Ip : list float) :
  cond_met threshold Ip = [] <->
  forall i, (i < length Ip)%nat -> met threshold Ip i = false.
Proof.
  unfold cond_met, Np.nonzero. rewrite nonzero_from_nil, all_masks_length.
  split; intros H i Hi.
  - rewrite <- all_masks_nth by assumption. auto.
  - rewrite all_masks_nth by assumption. auto.
Qed.

Lemma cond_met_first (Ip : list float) (i : nat) :
  first_met threshold Ip i ->
  exists rest, cond_met threshold Ip = i :: rest.
Proof.
  intros (Hi & Hm & Hf). unfold cond_met, Np.nonzero.
  apply (nonzero_from_first 0).
  - rewrite all_masks_length. assumption.
  - rewrite all_masks_nth by assumption. assumption.
  - intros j Hj. rewrite all_masks_nth by lia. auto.
Qed.

Lemma cond_met_head (Ip : list float) (i : nat) (rest : list nat) :
  cond_met threshold Ip = i :: rest -> first_met threshold Ip i.
Proof.
  unfold cond_met, Np.nonzero. intros H.
  apply nonzero_from_head in H as (k & -> & Hk & Ht & Hf).
  rewrite all_masks_length in Hk. cbn. repeat split; auto.
  - rewrite <- all_masks_nth by assumption. assumption.
  - intros j Hj. rewrite <- all_masks_nth by lia. auto.
Qed.

End MaskFacts.

(** * The detector in terms of the filtered signal *)

Section DetectFacts.

Variable threshold : float.

Lemma filtered_lengths (Ip t : list float) :
  length Ip = length t ->
  length (filtered_Ip Ip t) = length (filtered_t t).
Proof. intros H. apply select_length_eq. assumption. Qed.

Lemma filtered_t_nonneg (t : list float) :
  Forall (fun x => (0 <=? x) = true) (filtered_t t).
Proof. apply (select_map_Forall (fun x => 0 <=? x)). Qed.

Lemma detect_filtered (Ip t : list float) :
  length Ip = length t ->
  detect threshold Ip t =
  match cond_met threshold (filtered_Ip Ip t) with
  | [] => Returned 0
  | i :: _ =>
      match nth_error (filtered_t t) i with
      | Some v => Returned v
      | None => Raised IndexError
      end
  end.
Proof.
  intros H. unfold detect, time_mask.
  rewrite length_map, H, Nat.eqb_refl. reflexivity.
Qed.

Lemma detect_mismatch (Ip t : list float) :
  length Ip <> length t -> t <> [] ->
  detect threshold Ip t = Raised IndexError.
Proof.
  intros H Ht. unfold detect, time_mask. rewrite length_map.
  apply Nat.eqb_neq in H. rewrite H.
  destruct t as [| x t']; [contradiction | reflexivity].
Qed.

(** An empty time array: the empty mask selects nothing from [Ip]. *)
Lemma detect_empty_time (Ip : list float) :
  detect threshold Ip [] = Returned 0.
Proof.
  unfold detect. cbn [time_mask map length Nat.eqb negb].
  rewrite andb_false_r. destruct Ip; reflexivity.
Qed.

(** No index passes the three tests: the sentinel [0.0]. *)
Lemma detect_none (Ip t : list float) :
  length Ip = length t ->
  (forall i, (i < length (filtered_Ip Ip t))%nat ->
             met threshold (filtered_Ip Ip t) i = false) ->
  detect threshold Ip t = Returned 0.
Proof.
  intros H Hm. rewrite detect_filtered by assumption.
  apply cond_met_nil in Hm. rewrite Hm. reflexivity.
Qed.

(** Index [i] is the first to pass: its time stamp. *)
Lemma detect_first (Ip t : list float) (i : nat) :
  length Ip = length t ->
  first_met threshold (filtered_Ip Ip t) i ->
  detect threshold Ip t = Returned (nth i (filtered_t t) 0).
Proof.
  intros H Hf. rewrite detect_filtered by assumption.
  destruct (cond_met_first _ _ _ Hf) as [rest ->].
  destruct Hf as (Hi & _). rewrite (filtered_lengths _ _ H) in Hi.
  rewrite (nth_error_nth' _ 0 Hi). reflexivity.
Qed.

End DetectFacts.

Section LoadFacts.

Context {Tree Node : Type}.
Variable mds : MDSplus.api Tree Node.

Lemma shot_length_loaded (shot : option Z) (tree : tree_arg Tree)
      (threshold : float) (Ip t : list float) :
  load mds shot tree = Ok (Ip, t) ->
  shot_length mds shot tree threshold = (detect threshold Ip t, []).
Proof. intros H. unfold shot_length. rewrite H. reflexivity. Qed.

Lemma load_node_fails (shot : option Z) (tree : tree_arg Tree) (e : exn) :
  ip_node mds shot tree = Err e -> load mds shot tree = Err e.
Proof. intros H. unfold load. rewrite H. reflexivity. Qed.

Lemma load_data_fails (shot : option Z) (tree : tree_arg Tree)
      (n : Node) (e : exn) :
  ip_node mds shot tree = Ok n -> MDSplus.data mds n = Err e ->
  load mds shot tree = Err e.
Proof. intros H1 H2. unfold load. rewrite H1. cbn. rewrite H2. reflexivity. Qed.

Lemma load_dim_fails (shot : option Z) (tree : tree_arg Tree)
      (n : Node) (raw : list float) (e : exn) :
  ip_node mds shot tree = Ok n -> MDSplus.data mds n = Ok raw ->
  MDSplus.dim_of_data mds n = Err e ->
  load mds shot tree = Err e.
Proof.
  intros H1 H2 H3. unfold load. rewrite H1. cbn. rewrite H2. cbn.
  rewrite H3. reflexivity.
Qed.

(** [load] fails exactly when one of the calls of the [try] body raises. *)
Lemma load_fails_iff (shot : option Z) (tree : tree_arg Tree) :
  (exists e, load mds shot tree = Err e) <->
  (exists e, ip_node mds shot tree = Err e) \/
  (exists n, ip_node mds shot tree = Ok n /\
     ((exists e, MDSplus.data mds n = Err e) \/
      (exists e, MDSplus.dim_of_data mds n = Err e))).
Proof.
  unfold load. destruct (ip_node mds shot tree) as [n | e]; cbn.
  - destruct (MDSplus.data mds n) as [raw | e] eqn:Hd; cbn.
    + destruct (MDSplus.dim_of_data mds n) as [t | e] eqn:Ht; cbn.
      * split.
        -- intros [e He]. discriminate.
        -- intros [[e He] | (n' & Hn & [[e He] | [e He]])]; try discriminate.
           ++ injection Hn as <-. rewrite Hd in He. discriminate.
           ++ injection Hn as <-. rewrite Ht in He. discriminate.
      * split; [| eauto]. intros _. right. exists n. split; eauto.
    + split; [| eauto]. intros _. right. exists n. split; eauto.
  - split; eauto.
Qed.

End LoadFacts.

Lemma load_array_source (raw t : list float) (shot : option Z)
      (tree : tree_arg unit) :
  load (array_source raw t) shot tree = Ok (map abs raw, t).
Proof. destruct tree; reflexivity. Qed.

(** * Three shapes of the filtered current

    What the combined test does on a current that stays above the
    threshold, on one with a one-sample dip, and on one that crosses the
    threshold once.  [Ip] is the filtered current. *)

Section Shapes.

Variable threshold : float.
Variable Ip : list float.

(** Two neighbours above the threshold whose excesses do not multiply to
    zero fail the sign-change test. *)
Lemma indicator_A_above (i : nat) :
  (i < length Ip)%nat ->
  (threshold <? sample Ip i) = true ->
  ((S i < length Ip)%nat -> (threshold <? sample Ip (S i)) = true) ->
  ((S i < length Ip)%nat ->
   ((sample Ip i - threshold) * (sample Ip (S i) - threshold) =? 0) = false) ->
  indicator_A threshold Ip i = false.
Proof.
  intros Hi Ha Hb Hz. unfold indicator_A.
  destruct (Nat.ltb_spec (S i) (length Ip)) as [Hlt | Hge].
  - rewrite prod_above by auto. auto.
  - apply flt_not_fle. exact Ha.
Qed.

Lemma met_false_A (i : nat) :
  indicator_A threshold Ip i = false -> met threshold Ip i = false.
Proof. intros H. unfold met. rewrite H. reflexivity. Qed.

Lemma met_false_B (i : nat) :
  indicator_B threshold Ip i = false -> met threshold Ip i = false.
Proof. intros H. unfold met. rewrite H, andb_false_r. reflexivity. Qed.

Lemma met_false_C (i : nat) :
  indicator_C threshold Ip i = false -> met threshold Ip i = false.
Proof. intros H. unfold met. rewrite H. apply andb_false_r. Qed.

(** Every sample above the threshold, no underflow: no index passes. *)
Lemma above_met_false :
  (forall i, (i < length Ip)%nat -> (threshold <? sample Ip i) = true) ->
  (forall i, (S i < length Ip)%nat ->
             ((sample Ip i - threshold)
              * (sample Ip (S i) - threshold) =? 0) = false) ->
  forall i, (i < length Ip)%nat -> met threshold Ip i = false.
Proof.
  intros Habove Hprod i Hi. apply met_false_A. apply indicator_A_above; auto.
Qed.

(** A dip at [j]: the dip fails the 1-step test, the sample before it fails
    the 8-step test when its partner is higher, and every other index fails
    the sign-change test. *)
Lemma dip_met_false (j : nat) :
  (S j < length Ip)%nat ->
  (sample Ip j <? threshold) = true ->
  (forall i, (i < length Ip)%nat -> i <> j ->
             (threshold <? sample Ip i) = true) ->
  (forall i, (S i < length Ip)%nat -> i <> j -> S i <> j ->
             ((sample Ip i - threshold)
              * (sample Ip (S i) - threshold) =? 0) = false) ->
  (forall p, S p = j -> (p + 8 < length Ip)%nat ->
             (sample Ip p <? sample Ip (p + 8)) = true) ->
  forall i, (i < length Ip)%nat -> met threshold Ip i = false.
Proof.
  intros Hj Hdip Habove Hprod Hpre i Hi.
  destruct (Nat.eq_dec i j) as [-> | Hij].
  - (* the dip itself: the current rises to the next sample *)
    apply met_false_B. unfold indicator_B.
    destruct (Nat.ltb_spec (S j) (length Ip)) as [_ | ?]; [| lia].
    apply sub_pos_gt. apply flt_trans with threshold; [exact Hdip |].
    apply Habove; lia.
  - destruct (Nat.eq_dec (S i) j) as [Hp | Hnp].
    + (* the sample before the dip: the 8-step test fails *)
      apply met_false_C. unfold indicator_C.
      destruct (Nat.ltb_spec (i + 8) (length Ip)) as [H8 | H8].
      * apply sub_pos_gt. apply Hpre; assumption.
      * apply flt_not_fle. apply Habove; assumption.
    + apply met_false_A. apply indicator_A_above; auto.
Qed.

(** A single crossing between [k - 1] and [k], at least 8 samples before the
    end: [k - 1] is the first index to pass. *)
Lemma crossing_first_met (k : nat) :
  (0 < k)%nat -> (k + 8 <= length Ip)%nat ->
  (forall i, (i < k)%nat -> (threshold <? sample Ip i) = true) ->
  (forall i, (k <= i < length Ip)%nat ->
             (sample Ip i <=? threshold) = true) ->
  (forall i, (S i < k)%nat ->
             ((sample Ip i - threshold)
              * (sample Ip (S i) - threshold) =? 0) = false) ->
  (0 <=? sample Ip k) = true ->
  (sample Ip (k - 1) <? infinity) = true ->
  first_met threshold Ip (k - 1).
Proof.
  intros Hk HN Habove Hbelow Hprod Hmag Hfin.
  assert (HT0 : (0 <=? threshold) = true).
  { apply fle_trans with (sample Ip k); [exact Hmag | apply Hbelow; lia]. }
  assert (Hlast : (threshold <? sample Ip (k - 1)) = true)
    by (apply Habove; lia).
  assert (Hnext : forall i, (k <= i < length Ip)%nat ->
                            (sample Ip i <? sample Ip (k - 1)) = true).
  { intros i Hi. apply fle_flt_trans with threshold; auto. }
  repeat split; [lia | |].
  - unfold met, indicator_A, indicator_B, indicator_C.
    replace (S (k - 1)) with k by lia.
    destruct (Nat.ltb_spec k (length Ip)) as [_ | ?]; [| lia].
    destruct (Nat.ltb_spec (k - 1 + 8) (length Ip)) as [_ | ?]; [| lia].
    rewrite prod_cross.
    + rewrite !sub_neg_lt by (apply Hnext; lia). reflexivity.
    + exact Hlast.
    + apply Hbelow. lia.
    + apply nonneg_above_neg_infinity. exact HT0.
    + apply sub_below_finite; assumption.
  - intros i Hi. apply met_false_A. apply indicator_A_above.
    + lia.
    + apply Habove. lia.
    + intros _. apply Habove. lia.
    + intros _. apply Hprod. lia.
Qed.

End Shapes.

(** What [load] hands to the detector is a magnitude: NaN or at least 0. *)
Lemma load_magnitudes {Tree Node : Type} (mds : MDSplus.api Tree Node)
      (shot : option Z) (tree : tree_arg Tree) (Ip t : list float) :
  load mds shot tree = Ok (Ip, t) ->
  Forall (fun x => fnan x = true \/ (0 <=? x) = true) Ip.
Proof.
  unfold load. destruct (ip_node mds shot tree) as [n | e]; cbn; [| discriminate].
  destruct (MDSplus.data mds n) as [raw | e]; cbn; [| discriminate].
  destruct (MDSplus.dim_of_data mds n) as [t' | e]; cbn; [| discriminate].
  intros H. injection H as <- _.
  apply Forall_map. apply Forall_forall. intros x _.
  destruct (fnan x) eqn:N.
  - left. rewrite abs_nan. exact N.
  - right. apply abs_nonneg. exact N.
Qed.

(** * Properties of [shot_length], claim by claim *)

(** Two outcomes that return different doubles are different. *)
Ltac outcome_neq H :=
  match type of H with
  | Returned ?a = _ =>
      apply (f_equal (fun o => match o with
                               | Returned v => PrimFloat.eqb v a
                               | Raised _ => false
                               end)) in H;
      vm_compute in H; discriminate H
  end.

(** A statement about every index of a concrete array, index by index. *)
Ltac index_case :=
  intros; first [vm_compute; reflexivity | exfalso; cbn in *; lia].
Tactic Notation "upto" integer(n) :=
  let i := fresh "i" in
  intros i; do n (destruct i as [| i]; [index_case |]); index_case.

(** ** C1: the concrete scenario *)

(** C1 (as amended): on time = [-1,0,...,9], current = [2e5 x3, 1e5 x8] and
    threshold 1.2e5 the detector returns 1.0, the time stamp of filtered
    index 1: the last sample above the threshold, whose pair (1,2) straddles
    it.  The whole call returns the same value and issues no warning. *)
Theorem scenario_returns_1 :
  all_masks 1.2e5 (filtered_Ip scenario_current scenario_time)
    = [false; true; false; false; false; false; false; false; false; true]
  /\ detect 1.2e5 scenario_current scenario_time = Returned 1
  /\ shot_length (array_source scenario_current scenario_time)
                 (Some 1140729030%Z) (TreeName "magnetics") default_threshold
     = (Returned 1, []).
Proof. repeat split; vm_compute; reflexivity. Qed.

(** C1 as stated fails: the detector does not return 2 on the scenario. *)
Lemma scenario_does_not_return_2 :
  detect 1.2e5 scenario_current scenario_time <> Returned 2.
Proof.
  intros H. assert (E : detect 1.2e5 scenario_current scenario_time = Returned 1)
    by (vm_compute; reflexivity).
  rewrite E in H. outcome_neq H.
Qed.

(** ** C2: a current that drops below the threshold and stays there *)

(** C2 (as amended): let [k >= 1] be the first filtered index with
    [Ip[k] <= T], with every earlier sample strictly above [T] and every
    later one at or below it (a monotonically decreasing current that
    crosses [T] is one such signal).  The currents are magnitudes:
    [Ip[k]] is non-negative and [Ip[k-1]] is finite.  If at least 8
    samples follow the last sample above the threshold ([k + 8 <= N]) and
    no product of neighbouring excesses before the crossing underflows to
    zero, then the detector returns [t[k-1]]: the time of the last sample
    above the threshold, one grid step before the first sample at or below
    it. *)
Theorem crossing_detected_one_step_early
        (threshold : float) (Ip t : list float) (k : nat) :
  length Ip = length t ->
  (0 < k)%nat -> (k + 8 <= length (filtered_Ip Ip t))%nat ->
  (forall i, (i < k)%nat ->
             (threshold <? sample (filtered_Ip Ip t) i) = true) ->
  (forall i, (k <= i < length (filtered_Ip Ip t))%nat ->
             (sample (filtered_Ip Ip t) i <=? threshold) = true) ->
  (forall i, (S i < k)%nat ->
             ((sample (filtered_Ip Ip t) i - threshold)
              * (sample (filtered_Ip Ip t) (S i) - threshold) =? 0) = false) ->
  (0 <=? sample (filtered_Ip Ip t) k) = true ->
  (sample (filtered_Ip Ip t) (k - 1) <? infinity) = true ->
  detect threshold Ip t = Returned (nth (k - 1) (filtered_t t) 0) /\
  within_one_step (detect threshold Ip t) (filtered_t t) k.
Proof.
  intros Hl Hk HN Habove Hbelow Hprod Hmag Hfin.
  assert (Hfirst : first_met threshold (filtered_Ip Ip t) (k - 1))
    by (apply crossing_first_met; assumption).
  assert (E : detect threshold Ip t = Returned (nth (k - 1) (filtered_t t) 0))
    by (apply detect_first; assumption).
  split; [exact E |].
  exists (k - 1)%nat. repeat split; try lia; [| exact E].
  rewrite <- (filtered_lengths _ _ Hl). lia.
Qed.

Lemma crossing_detected_witness :
  detect 1.2e5 scenario_current scenario_time
  = Returned (nth (2 - 1) (filtered_t scenario_time) 0) /\
  within_one_step (detect 1.2e5 scenario_current scenario_time)
                  (filtered_t scenario_time) 2.
Proof.
  apply (crossing_detected_one_step_early 1.2e5 scenario_current scenario_time 2).
  - reflexivity.
  - lia.
  - cbn. lia.
  - upto 2.
  - upto 10.
  - upto 1.
  - vm_compute. reflexivity.
  - vm_compute. reflexivity.
Defined.

(** C2 as stated fails: [late_drop_current] decreases monotonically from
    200 kA to 100 kA, first reaches the threshold at index 3 (time 3.0) and
    stays below it, but only 7 samples follow the last one above the
    threshold, and the detector returns 9.0, the last time stamp of the
    record: six grid steps after the first sample at or below the
    threshold. *)
Lemma late_drop_detected_at_end :
  length late_drop_current = length late_drop_time /\
  filtered_Ip late_drop_current late_drop_time = late_drop_current /\
  filtered_t late_drop_time = late_drop_time /\
  monotone_decreasing late_drop_current /\
  (forall i, (i < 3)%nat -> (1.2e5 <? sample late_drop_current i) = true) /\
  (forall i, (3 <= i < length late_drop_current)%nat ->
             (sample late_drop_current i <=? 1.2e5) = true) /\
  detect 1.2e5 late_drop_current late_drop_time = Returned 9 /\
  ~ within_one_step (detect 1.2e5 late_drop_current late_drop_time)
                    late_drop_time 3.
Proof.
  assert (E : detect 1.2e5 late_drop_current late_drop_time = Returned 9)
    by (vm_compute; reflexivity).
  repeat split; try (vm_compute; reflexivity).
  - unfold monotone_decreasing. upto 10.
  - upto 3.
  - upto 10.
  - intros (j & Hj & _ & H). rewrite E in H.
    assert (Hc : j = 2%nat \/ j = 3%nat \/ j = 4%nat) by lia.
    destruct Hc as [-> | [-> | ->]]; outcome_neq H.
Qed.

(** ** C3: a one-sample dip *)

(** C3 (as amended): a dip at filtered index [j], followed by at least one
    sample, with every other sample strictly above the threshold, is
    rejected (0.0 is returned) provided that the sample before the dip, if
    it has a partner 8 samples later, is strictly below that partner, and
    that no product of neighbouring excesses above the threshold underflows
    to zero. *)
Theorem single_dip_rejected (threshold : float) (Ip t : list float) (j : nat) :
  length Ip = length t ->
  (S j < length (filtered_Ip Ip t))%nat ->
  (sample (filtered_Ip Ip t) j <? threshold) = true ->
  (forall i, (i < length (filtered_Ip Ip t))%nat -> i <> j ->
             (threshold <? sample (filtered_Ip Ip t) i) = true) ->
  (forall i, (S i < length (filtered_Ip Ip t))%nat -> i <> j -> S i <> j ->
             ((sample (filtered_Ip Ip t) i - threshold)
              * (sample (filtered_Ip Ip t) (S i) - threshold) =? 0) = false) ->
  (forall p, S p = j -> (p + 8 < length (filtered_Ip Ip t))%nat ->
             (sample (filtered_Ip Ip t) p
              <? sample (filtered_Ip Ip t) (p + 8)) = true) ->
  detect threshold Ip t = Returned 0.
Proof.
  intros Hl Hj Hdip Habove Hprod Hpre. apply detect_none; [assumption |].
  apply dip_met_false with (j := j); assumption.
Qed.

Lemma single_dip_rejected_witness :
  detect 1.2e5 ramp_dip_current dip_time = Returned 0.
Proof.
  apply (single_dip_rejected 1.2e5 ramp_dip_current dip_time 2).
  - reflexivity.
  - cbn. lia.
  - vm_compute. reflexivity.
  - upto 11.
  - upto 11.
  - intros p Hp. injection Hp as ->. intros _. vm_compute. reflexivity.
Defined.

(** C3 as stated fails: a flat current of 200 kA dips to 100 kA for one
    sample and returns to 200 kA for the rest of the record, and the
    detector returns 1.0, the time stamp of the sample before the dip. *)
Lemma flat_top_dip_detected :
  length dip_current = length dip_time /\
  filtered_Ip dip_current dip_time = dip_current /\
  (sample dip_current 2 <? 1.2e5) = true /\
  (forall i, (i < length dip_current)%nat -> i <> 2%nat ->
             (1.2e5 <? sample dip_current i) = true) /\
  detect 1.2e5 dip_current dip_time = Returned 1 /\
  detect 1.2e5 dip_current dip_time <> Returned 0.
Proof.
  repeat split; try (vm_compute; reflexivity).
  - upto 11.
  - intros H.
    assert (E : detect 1.2e5 dip_current dip_time = Returned 1)
      by (vm_compute; reflexivity).
    rewrite E in H. outcome_neq H.
Qed.

(** A dip on a flat or falling current is detected: when the samples up to
    [p] are above the threshold, sample [p + 1] is below it, and the current
    8 samples after [p] is at or below the current at [p], the detector
    returns [t[p]], however high the current is afterwards.  The currents
    are magnitudes (non-negative, finite at [p]).  This is the converse of
    the condition of [single_dip_rejected]. *)
Theorem dip_on_flat_current_detected
        (threshold : float) (Ip t : list float) (p : nat) :
  length Ip = length t ->
  (p + 8 < length (filtered_Ip Ip t))%nat ->
  (forall i, (i <= p)%nat ->
             (threshold <? sample (filtered_Ip Ip t) i) = true) ->
  (forall i, (i < p)%nat ->
             ((sample (filtered_Ip Ip t) i - threshold)
              * (sample (filtered_Ip Ip t) (S i) - threshold) =? 0) = false) ->
  (sample (filtered_Ip Ip t) (S p) <? threshold) = true ->
  (sample (filtered_Ip Ip t) (p + 8) <=? sample (filtered_Ip Ip t) p) = true ->
  (0 <=? sample (filtered_Ip Ip t) (S p)) = true ->
  (0 <=? sample (filtered_Ip Ip t) (p + 8)) = true ->
  (sample (filtered_Ip Ip t) p <? infinity) = true ->
  detect threshold Ip t = Returned (nth p (filtered_t t) 0).
Proof.
  intros Hl HN Habove Hprod Hdip Hflat Hm1 Hm8 Hfin.
  apply detect_first; [assumption |].
  set (I := filtered_Ip Ip t) in *.
  assert (Hp : (threshold <? sample I p) = true) by (apply Habove; lia).
  assert (HT0 : (0 <=? threshold) = true)
    by (apply nonneg_lt_trans with (sample I (S p)); assumption).
  repeat split; [lia | |].
  - unfold met, indicator_A, indicator_B, indicator_C.
    destruct (Nat.ltb_spec (S p) (length I)) as [_ | ?]; [| lia].
    destruct (Nat.ltb_spec (p + 8) (length I)) as [_ | ?]; [| lia].
    rewrite prod_cross.
    + rewrite sub_neg_lt by (apply flt_trans with threshold; assumption).
      rewrite sub_le_nonpos; auto.
      apply nonneg_above_neg_infinity. assumption.
    + exact Hp.
    + apply leb_true. apply ltb_true in Hdip as (? & ? & ?).
      repeat split; auto. apply Z.lt_le_incl. assumption.
    + apply nonneg_above_neg_infinity. exact HT0.
    + apply sub_below_finite; assumption.
  - intros i Hi. apply met_false_A. apply indicator_A_above.
    + lia.
    + apply Habove. lia.
    + intros _. apply Habove. lia.
    + intros _. apply Hprod. lia.
Qed.

Lemma dip_on_flat_current_witness :
  detect 1.2e5 dip_current dip_time = Returned (nth 1 (filtered_t dip_time) 0).
Proof.
  apply (dip_on_flat_current_detected 1.2e5 dip_current dip_time 1).
  - reflexivity.
  - cbn. lia.
  - upto 2.
  - upto 1.
  - vm_compute. reflexivity.
  - vm_compute. reflexivity.
  - vm_compute. reflexivity.
  - vm_compute. reflexivity.
  - vm_compute. reflexivity.
Defined.

(** ** C4: the data source fails *)

(** C4: whenever the body of the [try] raises, whatever the exception,
    [shot_length] does not raise: it returns 0.0 and issues exactly one
    warning, the [RuntimeWarning] of line 60. *)
Theorem load_failure_returns_zero_with_one_warning
        {Tree Node : Type} (mds : MDSplus.api Tree Node)
        (shot : option Z) (tree : tree_arg Tree) (threshold : float) (e : exn) :
  load mds shot tree = Err e ->
  shot_length mds shot tree threshold = (Returned 0, [load_warning]) /\
  length (snd (shot_length mds shot tree threshold)) = 1%nat.
Proof.
  intros H. unfold shot_length. rewrite H. split; reflexivity.
Qed.

Lemma load_failure_witness :
  load offline_source None (TreeName "magnetics") = Err (MdsError "TreeNOT_OPEN")
  /\ shot_length offline_source None (TreeName "magnetics") default_threshold
     = (Returned 0, [load_warning])
  /\ length (snd (shot_length offline_source None (TreeName "magnetics")
                              default_threshold)) = 1%nat.
Proof.
  split; [reflexivity |].
  apply (load_failure_returns_zero_with_one_warning
           offline_source None (TreeName "magnetics") default_threshold
           (MdsError "TreeNOT_OPEN")).
  reflexivity.
Defined.

(** ** C5: samples before [t = 0] *)

Lemma negative_time_mask (extra : list (float * float)) :
  Forall (fun s => (fst s <? 0) = true) extra ->
  Forall (fun c => c = false) (time_mask (map fst extra)).
Proof.
  intros H. unfold time_mask. rewrite map_map.
  apply Forall_map. eapply Forall_impl; [| exact H].
  intros s Hs. apply flt_not_fle. exact Hs.
Qed.

(** C5: on a valid signal (arrays of equal length), prepending samples
    [(time, current)] whose times are all negative does not change what the
    detector returns. *)
Theorem negative_time_prefix_ignored
        (threshold : float) (Ip t : list float) (extra : list (float * float)) :
  length Ip = length t ->
  Forall (fun s => (fst s <? 0) = true) extra ->
  detect threshold (map snd extra ++ Ip) (map fst extra ++ t)
  = detect threshold Ip t.
Proof.
  intros Hl H. apply negative_time_mask in H.
  assert (Hl' : length (map snd extra ++ Ip) = length (map fst extra ++ t))
    by (rewrite !length_app, !length_map; lia).
  rewrite (detect_filtered threshold _ _ Hl').
  rewrite (detect_filtered threshold _ _ Hl).
  unfold filtered_Ip, filtered_t.
  assert (Hm : time_mask (map fst extra ++ t)
               = time_mask (map fst extra) ++ time_mask t).
  { unfold time_mask. apply map_app. }
  rewrite Hm.
  rewrite !select_app by (unfold time_mask; rewrite !length_map; reflexivity).
  rewrite (select_all_false (map snd extra)) by assumption.
  rewrite (select_all_false (map fst extra)) by assumption. reflexivity.
Qed.

Lemma negative_time_prefix_witness :
  Forall (fun s => (fst s <? 0) = true) [(-2, 5e4); (-1, 3e5)]
  /\ detect 1.2e5 (map snd [(-2, 5e4); (-1, 3e5)] ++ late_drop_current)
                  (map fst [(-2, 5e4); (-1, 3e5)] ++ late_drop_time)
     = detect 1.2e5 late_drop_current late_drop_time.
Proof.
  assert (H : Forall (fun s : float * float => (fst s <? 0) = true)
                     [(-2, 5e4); (-1, 3e5)])
    by (repeat constructor).
  split; [exact H |].
  exact (negative_time_prefix_ignored 1.2e5 late_drop_current late_drop_time
           [(-2, 5e4); (-1, 3e5)] eq_refl H).
Defined.

(** ** C6: the trailing edge of the 8-step mask *)

(** C6: when the last 8 samples (all of them when there are fewer) are at
    or below the threshold, [delta_8_mask] is true at each of those
    positions, whatever the earlier samples are. *)
Theorem trailing_lookahead_satisfied (threshold : float) (Ip : list float) :
  (forall i, (length Ip - 8 <= i < length Ip)%nat ->
             (sample Ip i <=? threshold) = true) ->
  forall i, (length Ip - 8 <= i < length Ip)%nat ->
            nth i (delta_8_mask threshold Ip) false = true /\
            indicator_C threshold Ip i = true.
Proof.
  intros H i Hi.
  rewrite delta_8_mask_nth by lia.
  assert (E : indicator_C threshold Ip i = true).
  { unfold indicator_C.
    destruct (Nat.ltb_spec (i + 8) (length Ip)); [lia | apply H; exact Hi]. }
  split; exact E.
Qed.

Lemma trailing_lookahead_witness :
  nth 5 (delta_8_mask 1.2e5 early_drop_current) false = true /\
  indicator_C 1.2e5 early_drop_current 5 = true.
Proof.
  apply (trailing_lookahead_satisfied 1.2e5 early_drop_current).
  - upto 10.
  - cbn. lia.
Defined.

(** ** C7: nothing left after filtering *)

(** C7: a signal with no sample at [time >= 0.0] makes the detector return
    0.0 without raising. *)
Theorem empty_after_filtering_returns_zero
        (threshold : float) (Ip t : list float) :
  length Ip = length t ->
  Forall (fun x => (0 <=? x) = false) t ->
  detect threshold Ip t = Returned 0 /\ filtered_Ip Ip t = [].
Proof.
  intros Hl H.
  assert (Hm : Forall (fun c => c = false) (time_mask t)).
  { unfold time_mask. apply Forall_map. exact H. }
  assert (HI : filtered_Ip Ip t = []) by (apply select_all_false; exact Hm).
  split; [| exact HI].
  rewrite detect_filtered by assumption. rewrite HI. reflexivity.
Qed.

Lemma empty_after_filtering_witness :
  detect 1.2e5 [5e4; 3e5] [-2; -1] = Returned 0 /\
  filtered_Ip [5e4; 3e5] [-2; -1] = [].
Proof.
  apply (empty_after_filtering_returns_zero 1.2e5 [5e4; 3e5] [-2; -1]).
  - reflexivity.
  - repeat constructor.
Defined.

(** ** C8: a current that never reaches the threshold *)

(** C8 (as amended): when every filtered sample is strictly above the
    threshold and no product [(Ip[i] - T) * (Ip[i+1] - T)] of neighbouring
    excesses underflows to zero, the detector returns 0.0. *)
Theorem always_above_returns_zero (threshold : float) (Ip t : list float) :
  length Ip = length t ->
  (forall i, (i < length (filtered_Ip Ip t))%nat ->
             (threshold <? sample (filtered_Ip Ip t) i) = true) ->
  (forall i, (S i < length (filtered_Ip Ip t))%nat ->
             ((sample (filtered_Ip Ip t) i - threshold)
              * (sample (filtered_Ip Ip t) (S i) - threshold) =? 0) = false) ->
  detect threshold Ip t = Returned 0.
Proof.
  intros Hl Habove Hprod. apply detect_none; [assumption |].
  apply above_met_false; assumption.
Qed.

Lemma always_above_witness :
  detect 1.2e5 (repeat 2e5 10) late_drop_time = Returned 0.
Proof.
  apply (always_above_returns_zero 1.2e5 (repeat 2e5 10) late_drop_time).
  - reflexivity.
  - upto 10.
  - upto 10.
Defined.

(** C8 as stated fails: a current of [2^-600] A is strictly above the
    threshold 0.0 at every sample, yet the squared excess underflows to 0.0,
    the sign test passes and the first time stamp, 1.0, is returned. *)
Lemma tiny_current_detected :
  Forall (fun x => (0 <? x) = true) tiny_current /\
  length tiny_current = length tiny_time /\
  filtered_Ip tiny_current tiny_time = tiny_current /\
  detect 0 tiny_current tiny_time = Returned 1 /\
  detect 0 tiny_current tiny_time <> Returned 0.
Proof.
  repeat split; try (vm_compute; reflexivity).
  - repeat constructor.
  - intros H.
    assert (E : detect 0 tiny_current tiny_time = Returned 1)
      by (vm_compute; reflexivity).
    rewrite E in H. outcome_neq H.
Qed.

(** With a threshold of at least [2^-480] A, the default 120 kA among them,
    a current strictly above the threshold at every filtered sample makes
    the detector return 0.0: the sign test cannot underflow. *)
Theorem always_above_safe_threshold (threshold : float) (Ip t : list float) :
  length Ip = length t ->
  (underflow_safe <=? threshold) = true ->
  (forall i, (i < length (filtered_Ip Ip t))%nat ->
             (threshold <? sample (filtered_Ip Ip t) i) = true) ->
  detect threshold Ip t = Returned 0.
Proof.
  intros Hl HT Habove. apply detect_none; [assumption |].
  apply above_met_false; [assumption |].
  intros i Hi. apply excess_product_nonzero; auto. apply Habove. lia.
Qed.

Lemma always_above_safe_witness :
  detect default_threshold (repeat 2e5 10) late_drop_time = Returned 0.
Proof.
  apply (always_above_safe_threshold
           default_threshold (repeat 2e5 10) late_drop_time).
  - reflexivity.
  - vm_compute. reflexivity.
  - upto 10.
Defined.

(** ** C9: what the detector can return *)

(** C9: on a signal of equal-length arrays the detector returns 0.0 when no
    filtered index passes the three tests, and otherwise the time stamp
    of the smallest filtered index that passes all three; that time stamp
    is at or above 0.0, so it is never the time of a negative-time sample. *)
Theorem detect_returns_zero_or_first_met
        (threshold : float) (Ip t : list float) :
  length Ip = length t ->
  (detect threshold Ip t = Returned 0 /\
   forall i, (i < length (filtered_Ip Ip t))%nat ->
             met threshold (filtered_Ip Ip t) i = false)
  \/
  (exists i v,
      first_met threshold (filtered_Ip Ip t) i /\
      nth_error (filtered_t t) i = Some v /\
      detect threshold Ip t = Returned v /\
      (0 <=? v) = true /\ (v <? 0) = false).
Proof.
  intros Hl.
  destruct (cond_met threshold (filtered_Ip Ip t)) as [| i rest] eqn:E.
  - left. split.
    + rewrite detect_filtered, E by assumption. reflexivity.
    + apply cond_met_nil. exact E.
  - right. apply cond_met_head in E.
    pose proof E as (Hi & _). rewrite (filtered_lengths _ _ Hl) in Hi.
    exists i, (nth i (filtered_t t) 0).
    assert (Hv : (0 <=? nth i (filtered_t t) 0) = true).
    { pose proof (filtered_t_nonneg t) as F.
      rewrite Forall_forall in F. apply F. apply nth_In. exact Hi. }
    repeat split; try apply E; auto.
    + apply nth_error_nth'. exact Hi.
    + apply detect_first; assumption.
    + destruct (nth i (filtered_t t) 0 <? 0) eqn:N; [| reflexivity].
      apply flt_not_fle in N. congruence.
Qed.

Lemma detect_returns_zero_or_first_met_witness :
  (detect 1.2e5 scenario_current scenario_time = Returned 0 /\
   forall i, (i < length (filtered_Ip scenario_current scenario_time))%nat ->
             met 1.2e5 (filtered_Ip scenario_current scenario_time) i = false)
  \/
  (exists i v,
      first_met 1.2e5 (filtered_Ip scenario_current scenario_time) i /\
      nth_error (filtered_t scenario_time) i = Some v /\
      detect 1.2e5 scenario_current scenario_time = Returned v /\
      (0 <=? v) = true /\ (v <? 0) = false).
Proof.
  apply (detect_returns_zero_or_first_met 1.2e5 scenario_current scenario_time).
  reflexivity.
Defined.

(** ** C10: a detection at [t = 0] *)

(** C10: on a current that falls below the threshold right after a first
    sample taken at time 0.0, index 0 is the smallest index passing the
    three tests and its time stamp 0.0 is returned: the value that is
    also returned when nothing is detected and when the data cannot be
    loaded. *)
Theorem detection_at_time_zero_is_ambiguous :
  exists (Ip t : list float) (threshold : float),
    length Ip = length t /\
    first_met threshold (filtered_Ip Ip t) 0 /\
    nth_error (filtered_t t) 0 = Some 0 /\
    detect threshold Ip t = Returned 0 /\
    detect threshold [] [] = Returned 0 /\
    fst (shot_length offline_source None (TreeName "magnetics") threshold)
    = Returned 0.
Proof.
  exists early_drop_current, early_drop_time, 1.2e5.
  repeat split; try (vm_compute; reflexivity).
  - cbn. lia.
  - intros j Hj. lia.
Qed.

(** ** Further properties of the code *)

(** The three masks and their conjunction have the length of the filtered
    current, and entry [i] of the conjunction is [A[i] && B[i] && C[i]] as
    the specification defines the indicators. *)
Theorem masks_compute_indicators (threshold : float) (Ip : list float) :
  (length (delta_prod_mask threshold Ip) = length Ip /\
   length (delta_1_mask threshold Ip) = length Ip /\
   length (delta_8_mask threshold Ip) = length Ip /\
   length (all_masks threshold Ip) = length Ip) /\
  forall i, (i < length Ip)%nat ->
            nth i (all_masks threshold Ip) false
            = indicator_A threshold Ip i && indicator_B threshold Ip i
              && indicator_C threshold Ip i.
Proof.
  split.
  - repeat split.
    + apply delta_prod_mask_length.
    + apply delta_mask_length.
    + apply delta_mask_length.
    + apply all_masks_length.
  - intros i Hi. rewrite all_masks_nth by assumption. reflexivity.
Qed.

(** Arrays of different lengths make the boolean indexing of line 65 raise
    [IndexError]; the exception is not caught and [warnings.warn] is not
    called.  The one exception is an empty time array: NumPy accepts the
    empty mask, nothing is selected and 0.0 is returned. *)
Theorem length_mismatch_raises
        {Tree Node : Type} (mds : MDSplus.api Tree Node)
        (shot : option Z) (tree : tree_arg Tree) (threshold : float)
        (Ip t : list float) :
  load mds shot tree = Ok (Ip, t) ->
  length Ip <> length t ->
  shot_length mds shot tree threshold
  = (match t with
     | [] => Returned 0
     | _ :: _ => Raised IndexError
     end, []).
Proof.
  intros Hload Hlen. rewrite (shot_length_loaded _ _ _ _ _ _ Hload).
  destruct t as [| x t'].
  - rewrite detect_empty_time. reflexivity.
  - rewrite detect_mismatch by (assumption || discriminate). reflexivity.
Qed.

Lemma length_mismatch_witness :
  shot_length (array_source [2e5; 1e5] [0; 1; 2]) None (TreeName "magnetics")
              default_threshold
  = (Raised IndexError, []).
Proof.
  apply (length_mismatch_raises (array_source [2e5; 1e5] [0; 1; 2]) None
           (TreeName "magnetics") default_threshold
           (map abs [2e5; 1e5]) [0; 1; 2]).
  - reflexivity.
  - cbn. lia.
Defined.

(** The whole call ignores samples taken before [t = 0]: with a data layer
    that serves raw arrays of equal length, prepending negative-time samples
    changes neither the value returned nor the calls of [warnings.warn]. *)
Theorem shot_length_ignores_negative_time
        (threshold : float) (raw t : list float) (extra : list (float * float))
        (shot : option Z) (tree : tree_arg unit) :
  length raw = length t ->
  Forall (fun s => (fst s <? 0) = true) extra ->
  shot_length (array_source (map snd extra ++ raw) (map fst extra ++ t))
              shot tree threshold
  = shot_length (array_source raw t) shot tree threshold.
Proof.
  intros Hl H. unfold shot_length. rewrite !load_array_source.
  rewrite map_app, map_map.
  f_equal.
  apply negative_time_mask in H.
  assert (Hl1 : length (map abs raw) = length t)
    by (rewrite length_map; assumption).
  assert (Hl2 : length (map (fun x => abs (snd x)) extra ++ map abs raw)
                = length (map fst extra ++ t))
    by (rewrite !length_app, !length_map; lia).
  rewrite (detect_filtered threshold _ _ Hl2).
  rewrite (detect_filtered threshold _ _ Hl1).
  unfold filtered_Ip, filtered_t.
  assert (Hm : time_mask (map fst extra ++ t)
               = time_mask (map fst extra) ++ time_mask t).
  { unfold time_mask. apply map_app. }
  rewrite Hm.
  rewrite !select_app by (unfold time_mask; rewrite !length_map; reflexivity).
  rewrite (select_all_false (map (fun x => abs (snd x)) extra)) by assumption.
  rewrite (select_all_false (map fst extra)) by assumption. reflexivity.
Qed.

Lemma shot_length_ignores_negative_time_witness :
  shot_length (array_source (map snd [(-2, 5e4); (-1, -3e5)] ++ late_drop_current)
                            (map fst [(-2, 5e4); (-1, -3e5)] ++ late_drop_time))
              None (TreeName "magnetics") default_threshold
  = shot_length (array_source late_drop_current late_drop_time)
                None (TreeName "magnetics") default_threshold.
Proof.
  apply (shot_length_ignores_negative_time default_threshold
           late_drop_current late_drop_time [(-2, 5e4); (-1, -3e5)]
           None (TreeName "magnetics")).
  - reflexivity.
  - repeat constructor.
Defined.

(** ** Outcomes of a call *)

(** A call ends in exactly one of four ways.  The load fails: 0.0 is
    returned and [warnings.warn] is called once.  Otherwise [warnings.warn]
    is not called, and either the arrays have the same length and a value
    is returned (the index [t[cond_met[0]]] is always in range); or they
    differ in length with an empty time array and 0.0 is returned; or they
    differ in length with a non-empty time array and [IndexError] is
    raised. *)
Theorem shot_length_outcomes
        {Tree Node : Type} (mds : MDSplus.api Tree Node)
        (shot : option Z) (tree : tree_arg Tree) (threshold : float) :
  (exists e, load mds shot tree = Err e /\
             shot_length mds shot tree threshold = (Returned 0, [load_warning]))
  \/
  (exists Ip t v, load mds shot tree = Ok (Ip, t) /\ length Ip = length t /\
                  shot_length mds shot tree threshold = (Returned v, []))
  \/
  (exists Ip, load mds shot tree = Ok (Ip, []) /\ length Ip <> 0%nat /\
              shot_length mds shot tree threshold = (Returned 0, []))
  \/
  (exists Ip t, load mds shot tree = Ok (Ip, t) /\ length Ip <> length t /\
                t <> [] /\
                shot_length mds shot tree threshold = (Raised IndexError, [])).
Proof.
  unfold shot_length. destruct (load mds shot tree) as [[Ip t] | e].
  - right. destruct (Nat.eq_dec (length Ip) (length t)) as [E | E].
    + left. rewrite detect_filtered by assumption.
      destruct (cond_met threshold (filtered_Ip Ip t)) as [| i rest] eqn:C.
      * exists Ip, t, 0. auto.
      * apply cond_met_head in C as (Hi & _).
        rewrite (filtered_lengths _ _ E) in Hi.
        rewrite (nth_error_nth' _ 0 Hi). eauto 6.
    + right. destruct t as [| x t'].
      * left. exists Ip. rewrite detect_empty_time. auto.
      * right. exists Ip, (x :: t').
        rewrite detect_mismatch by (assumption || discriminate).
        repeat split; auto. discriminate.
  - left. eauto.
Qed.

(** ** What a detection means *)

(** The index [i] whose time stamp is returned never sits on a rising
    current: the next sample and the sample 8 steps on, where they exist,
    are not above [Ip[i]]; where no sample 8 steps on exists, [Ip[i]] is at
    or below the threshold; and when [i] has a successor and the product of
    the two excesses is not zero, the pair is a downward crossing,
    [Ip[i] > T > Ip[i+1]]. *)
Theorem detection_is_downward_crossing
        (threshold : float) (Ip t : list float) (i : nat) :
  first_met threshold (filtered_Ip Ip t) i ->
  ((S i < length (filtered_Ip Ip t))%nat ->
   (sample (filtered_Ip Ip t) i <? sample (filtered_Ip Ip t) (S i)) = false) /\
  ((i + 8 < length (filtered_Ip Ip t))%nat ->
   (sample (filtered_Ip Ip t) i <? sample (filtered_Ip Ip t) (i + 8)) = false) /\
  ((length (filtered_Ip Ip t) <= i + 8)%nat ->
   (sample (filtered_Ip Ip t) i <=? threshold) = true) /\
  ((S i < length (filtered_Ip Ip t))%nat ->
   ((sample (filtered_Ip Ip t) i - threshold)
    * (sample (filtered_Ip Ip t) (S i) - threshold) =? 0) = false ->
   (threshold <? sample (filtered_Ip Ip t) i) = true /\
   (sample (filtered_Ip Ip t) (S i) <? threshold) = true).
Proof.
  intros (Hi & Hm & _). set (I := filtered_Ip Ip t) in *.
  unfold met in Hm. apply andb_true_iff in Hm as [Hm HC].
  apply andb_true_iff in Hm as [HA HB].
  unfold indicator_A in HA. unfold indicator_B in HB. unfold indicator_C in HC.
  assert (HB' : (S i < length I)%nat ->
                (sample I i <? sample I (S i)) = false).
  { intros HS. destruct (Nat.ltb_spec (S i) (length I)) as [_ | ?]; [| lia].
    destruct (sample I i <? sample I (S i)) eqn:E; [| reflexivity].
    apply sub_pos_gt in E. congruence. }
  repeat split.
  - exact HB'.
  - intros H8. destruct (Nat.ltb_spec (i + 8) (length I)) as [_ | ?]; [| lia].
    destruct (sample I i <? sample I (i + 8)) eqn:E; [| reflexivity].
    apply sub_pos_gt in E. congruence.
  - intros H8. destruct (Nat.ltb_spec (i + 8) (length I)) as [? | _]; [lia |].
    exact HC.
  - destruct (Nat.ltb_spec (S i) (length I)) as [_ | ?]; [| lia].
    destruct (prod_negative_sides _ _ _ HA H0) as [[Ha Hb] | [Ha Hb]]; [exact Ha |].
    specialize (HB' H). rewrite (flt_trans _ _ _ Ha Hb) in HB'. discriminate.
  - destruct (Nat.ltb_spec (S i) (length I)) as [_ | ?]; [| lia].
    destruct (prod_negative_sides _ _ _ HA H0) as [[Ha Hb] | [Ha Hb]]; [exact Hb |].
    specialize (HB' H). rewrite (flt_trans _ _ _ Ha Hb) in HB'. discriminate.
Qed.

Lemma detection_is_downward_crossing_witness :
  ((2 < length (filtered_Ip scenario_current scenario_time))%nat ->
   (sample (filtered_Ip scenario_current scenario_time) 1
    <? sample (filtered_Ip scenario_current scenario_time) 2) = false) /\
  ((1 + 8 < length (filtered_Ip scenario_current scenario_time))%nat ->
   (sample (filtered_Ip scenario_current scenario_time) 1
    <? sample (filtered_Ip scenario_current scenario_time) (1 + 8)) = false) /\
  ((length (filtered_Ip scenario_current scenario_time) <= 1 + 8)%nat ->
   (sample (filtered_Ip scenario_current scenario_time) 1 <=? 1.2e5) = true) /\
  ((2 < length (filtered_Ip scenario_current scenario_time))%nat ->
   ((sample (filtered_Ip scenario_current scenario_time) 1 - 1.2e5)
    * (sample (filtered_Ip scenario_current scenario_time) 2 - 1.2e5) =? 0)
   = false ->
   (1.2e5 <? sample (filtered_Ip scenario_current scenario_time) 1) = true /\
   (sample (filtered_Ip scenario_current scenario_time) 2 <? 1.2e5) = true).
Proof.
  apply (detection_is_downward_crossing 1.2e5 scenario_current scenario_time 1).
  split; [cbn; lia | split; [vm_compute; reflexivity | upto 1]].
Defined.

Section LastSample.

Variable threshold : float.
Variable Ip : list float.

(** At the last index all three tests are [Ip[N-1] <= threshold]. *)
Lemma met_last :
  (0 < length Ip)%nat ->
  met threshold Ip (length Ip - 1)
  = (sample Ip (length Ip - 1) <=? threshold).
Proof.
  intros HN. unfold met, indicator_A, indicator_B, indicator_C.
  destruct (Nat.ltb_spec (S (length Ip - 1)) (length Ip)); [lia |].
  destruct (Nat.ltb_spec (length Ip - 1 + 8) (length Ip)); [lia |].
  destruct (sample Ip (length Ip - 1) <=? threshold); reflexivity.
Qed.

End LastSample.



(** A current that is strictly below the threshold at every filtered sample
    is reported to end at the last time stamp of the record, provided no
    product of neighbouring excesses underflows to zero. *)
Theorem always_below_returns_last_time
        (threshold : float) (Ip t : list float) :
  length Ip = length t ->
  (0 < length (filtered_Ip Ip t))%nat ->
  (forall i, (i < length (filtered_Ip Ip t))%nat ->
             (sample (filtered_Ip Ip t) i <? threshold) = true) ->
  (forall i, (S i < length (filtered_Ip Ip t))%nat ->
             ((sample (filtered_Ip Ip t) i - threshold)
              * (sample (filtered_Ip Ip t) (S i) - threshold) =? 0) = false) ->
  detect threshold Ip t
  = Returned (nth (length (filtered_Ip Ip t) - 1) (filtered_t t) 0).
Proof.
  intros Hl HN Hbelow Hprod. apply detect_first; [assumption |].
  set (I := filtered_Ip Ip t) in *.
  repeat split; [lia | |].
  - rewrite met_last by assumption. apply flt_fle. apply Hbelow. lia.
  - intros j Hj. apply met_false_A. unfold indicator_A.
    destruct (Nat.ltb_spec (S j) (length I)) as [_ | ?]; [| lia].
    rewrite prod_below by (apply Hbelow; lia). apply Hprod. lia.
Qed.

Lemma always_below_witness :
  detect 1.2e5 (repeat 1e5 10) late_drop_time
  = Returned (nth (length (filtered_Ip (repeat 1e5 10) late_drop_time) - 1)
                  (filtered_t late_drop_time) 0).
Proof.
  apply (always_below_returns_last_time 1.2e5 (repeat 1e5 10) late_drop_time).
  - reflexivity.
  - cbn. lia.
  - upto 10.
  - upto 10.
Defined.

(** A crossing in the last 8 samples is reported at the end of the record:
    when the filtered current is strictly above the threshold before index
    [k >= 1] and strictly below it from [k] on, fewer than 8 samples follow
    the last sample above the threshold ([N < k + 8]) and no product of
    neighbouring excesses on one side of the threshold underflows to zero,
    the detector returns the last time stamp. *)
Theorem late_crossing_returns_last_time
        (threshold : float) (Ip t : list float) (k : nat) :
  length Ip = length t ->
  (0 < k < length (filtered_Ip Ip t))%nat ->
  (length (filtered_Ip Ip t) < k + 8)%nat ->
  (forall i, (i < k)%nat ->
             (threshold <? sample (filtered_Ip Ip t) i) = true) ->
  (forall i, (k <= i < length (filtered_Ip Ip t))%nat ->
             (sample (filtered_Ip Ip t) i <? threshold) = true) ->
  (forall i, (S i < length (filtered_Ip Ip t))%nat -> S i <> k ->
             ((sample (filtered_Ip Ip t) i - threshold)
              * (sample (filtered_Ip Ip t) (S i) - threshold) =? 0) = false) ->
  detect threshold Ip t
  = Returned (nth (length (filtered_Ip Ip t) - 1) (filtered_t t) 0).
Proof.
  intros Hl Hk HN Habove Hbelow Hprod. apply detect_first; [assumption |].
  set (I := filtered_Ip Ip t) in *.
  repeat split; [lia | |].
  - rewrite met_last by lia. apply flt_fle. apply Hbelow. lia.
  - intros j Hj.
    destruct (Nat.eq_dec (S j) k) as [E | E].
    + (* the last sample above the threshold: the trailing rule fails *)
      apply met_false_C. unfold indicator_C.
      destruct (Nat.ltb_spec (j + 8) (length I)) as [? | _]; [lia |].
      apply flt_not_fle. apply Habove. lia.
    + apply met_false_A. unfold indicator_A.
      destruct (Nat.ltb_spec (S j) (length I)) as [_ | ?]; [| lia].
      destruct (Nat.lt_ge_cases (S j) k) as [Hlt | Hge].
      * rewrite prod_above by (apply Habove; lia). apply Hprod; lia.
      * rewrite prod_below by (apply Hbelow; lia). apply Hprod; lia.
Qed.

Lemma late_crossing_witness :
  detect 1.2e5 late_drop_current late_drop_time
  = Returned (nth (length (filtered_Ip late_drop_current late_drop_time) - 1)
                  (filtered_t late_drop_time) 0).
Proof.
  apply (late_crossing_returns_last_time
           1.2e5 late_drop_current late_drop_time 3).
  - reflexivity.
  - cbn. lia.
  - cbn. lia.
  - upto 3.
  - upto 10.
  - upto 10.
Defined.

(** A strictly rising current whose last sample is above the threshold is
    never reported as terminated, wherever it crosses the threshold: the
    detector returns 0.0. *)
Theorem rising_current_returns_zero
        (threshold : float) (Ip t : list float) :
  length Ip = length t ->
  (forall i, (S i < length (filtered_Ip Ip t))%nat ->
             (sample (filtered_Ip Ip t) i
              <? sample (filtered_Ip Ip t) (S i)) = true) ->
  ((0 < length (filtered_Ip Ip t))%nat ->
   (threshold <? sample (filtered_Ip Ip t) (length (filtered_Ip Ip t) - 1))
   = true) ->
  detect threshold Ip t = Returned 0.
Proof.
  intros Hl Hrise Hlast. apply detect_none; [assumption |].
  set (I := filtered_Ip Ip t) in *.
  intros i Hi. apply met_false_B. unfold indicator_B.
  destruct (Nat.ltb_spec (S i) (length I)) as [HS | HS].
  - apply sub_pos_gt. apply Hrise. exact HS.
  - replace i with (length I - 1)%nat by lia.
    apply flt_not_fle. apply Hlast. lia.
Qed.

Lemma rising_current_witness :
  detect 1.2e5 [1e5; 1.1e5; 1.3e5; 1.4e5] [0; 1; 2; 3] = Returned 0.
Proof.
  apply (rising_current_returns_zero 1.2e5 [1e5; 1.1e5; 1.3e5; 1.4e5] [0; 1; 2; 3]).
  - reflexivity.
  - upto 4.
  - intros _. vm_compute. reflexivity.
Defined.

(** ** What the time filter drops *)

(** A sample whose time is negative or NaN ([time >= 0.0] is false) is
    ignored wherever it stands in a signal of equal-length arrays: removing
    it from both arrays does not change what the detector returns. *)
Theorem filtered_sample_is_ignored
        (threshold : float) (Ip1 Ip2 t1 t2 : list float) (c s : float) :
  length Ip1 = length t1 ->
  length Ip2 = length t2 ->
  (0 <=? s) = false ->
  detect threshold (Ip1 ++ c :: Ip2) (t1 ++ s :: t2)
  = detect threshold (Ip1 ++ Ip2) (t1 ++ t2).
Proof.
  intros Hl1 Hl2 Hs.
  assert (Hl : length (Ip1 ++ c :: Ip2) = length (t1 ++ s :: t2))
    by (rewrite !length_app; cbn [length]; lia).
  assert (Hl' : length (Ip1 ++ Ip2) = length (t1 ++ t2))
    by (rewrite !length_app; lia).
  rewrite (detect_filtered threshold _ _ Hl).
  rewrite (detect_filtered threshold _ _ Hl').
  unfold filtered_Ip, filtered_t.
  assert (Hm : time_mask (t1 ++ s :: t2)
               = time_mask t1 ++ false :: time_mask t2).
  { unfold time_mask. rewrite map_app. cbn [map]. rewrite Hs. reflexivity. }
  assert (Hm' : time_mask (t1 ++ t2) = time_mask t1 ++ time_mask t2).
  { unfold time_mask. apply map_app. }
  rewrite Hm, Hm'.
  rewrite !select_app by (unfold time_mask; rewrite length_map; auto).
  reflexivity.
Qed.

Lemma filtered_sample_is_ignored_witness :
  detect 1.2e5 ([2e5; 2e5] ++ 5e4 :: [2e5; 1e5; 1e5; 1e5; 1e5; 1e5; 1e5; 1e5; 1e5])
               ([0; 1] ++ nan :: [2; 3; 4; 5; 6; 7; 8; 9; 10])
  = detect 1.2e5 ([2e5; 2e5] ++ [2e5; 1e5; 1e5; 1e5; 1e5; 1e5; 1e5; 1e5; 1e5])
                 ([0; 1] ++ [2; 3; 4; 5; 6; 7; 8; 9; 10]).
Proof.
  apply (filtered_sample_is_ignored 1.2e5 [2e5; 2e5]
           [2e5; 1e5; 1e5; 1e5; 1e5; 1e5; 1e5; 1e5; 1e5]
           [0; 1] [2; 3; 4; 5; 6; 7; 8; 9; 10] 5e4 nan).
  - reflexivity.
  - reflexivity.
  - vm_compute. reflexivity.
Defined.

Lemma select_all_true {A} (a : list A) (m : list bool) :
  length a = length m -> Forall (fun c => c = true) m -> Np.select a m = a.
Proof.
  intros Hl H. revert a Hl.
  induction H as [| c m Hc _ IH]; intros [| x a] Hl; cbn in *;
    try discriminate; auto.
  rewrite Hc. f_equal. apply IH. lia.
Qed.

(** Filtering is idempotent: a caller who has already dropped the samples
    before [t = 0] gets the same result. *)
Theorem prefiltering_changes_nothing (threshold : float) (Ip t : list float) :
  length Ip = length t ->
  detect threshold (filtered_Ip Ip t) (filtered_t t) = detect threshold Ip t.
Proof.
  intros Hl.
  pose proof (filtered_lengths _ _ Hl) as HL.
  assert (Hall : Forall (fun c => c = true) (time_mask (filtered_t t))).
  { unfold time_mask. apply Forall_map. apply filtered_t_nonneg. }
  rewrite (detect_filtered threshold (filtered_Ip Ip t) (filtered_t t) HL).
  rewrite (detect_filtered threshold Ip t Hl).
  unfold filtered_Ip at 1. unfold filtered_t at 2.
  rewrite !select_all_true; auto; unfold time_mask; rewrite length_map; auto.
Qed.

Lemma prefiltering_witness :
  detect 1.2e5 (filtered_Ip scenario_current scenario_time)
               (filtered_t scenario_time)
  = detect 1.2e5 scenario_current scenario_time.
Proof.
  apply (prefiltering_changes_nothing 1.2e5 scenario_current scenario_time).
  reflexivity.
Defined.

(** ** Degenerate inputs *)

(** With a NaN threshold every comparison of the sign-change test is false:
    the detector returns 0.0 on every signal. *)
Theorem nan_threshold_returns_zero (Ip t : list float) :
  length Ip = length t -> detect nan Ip t = Returned 0.
Proof.
  intros Hl. apply detect_none; [assumption |].
  intros i Hi. apply met_false_A. unfold indicator_A.
  destruct (nan_threshold_tests nan (sample (filtered_Ip Ip t) i)
              (sample (filtered_Ip Ip t) (S i)) eq_refl) as [H1 H2].
  destruct (S i <? length (filtered_Ip Ip t))%nat; assumption.
Qed.

Lemma nan_threshold_witness :
  detect nan scenario_current scenario_time = Returned 0.
Proof.
  apply (nan_threshold_returns_zero scenario_current scenario_time).
  reflexivity.
Defined.

(** ** The data layer *)

(** Only the magnitude of the current counts: a data layer that serves
    every current with the opposite sign gives the same result. *)
Theorem current_sign_is_irrelevant
        {Tree Node : Type} (mds : MDSplus.api Tree Node)
        (shot : option Z) (tree : tree_arg Tree) (threshold : float) :
  shot_length (opposite_sign mds) shot tree threshold
  = shot_length mds shot tree threshold.
Proof.
  unfold shot_length, load.
  change (ip_node (opposite_sign mds) shot tree) with (ip_node mds shot tree).
  destruct (ip_node mds shot tree) as [n | e]; cbn [bind]; [| reflexivity].
  change (MDSplus.data (opposite_sign mds) n)
    with (map_result (map PrimFloat.opp) (MDSplus.data mds n)).
  change (MDSplus.dim_of_data (opposite_sign mds) n)
    with (MDSplus.dim_of_data mds n).
  destruct (MDSplus.data mds n) as [raw | e]; cbn [bind map_result];
    [| reflexivity].
  rewrite map_map.
  rewrite (map_ext (fun x => abs (- x)) abs abs_opp). reflexivity.
Qed.

Lemma string_length_append (p s : string) :
  String.length (p ++ s) = (String.length p + String.length s)%nat.
Proof. induction p as [| c p IH]; cbn; auto. Qed.

Lemma substring_prefix (p s : string) :
  String.substring 0 (String.length p) (p ++ s) = p.
Proof.
  induction p as [| c p IH]; cbn.
  - destruct s; reflexivity.
  - rewrite IH. reflexivity.
Qed.

(** [d[:-3]] removes a three-character suffix. *)
Lemma drop_last3_append (p s : string) :
  String.length s = 3%nat -> drop_last3 (p ++ s) = p.
Proof.
  intros H. unfold drop_last3. rewrite string_length_append, H.
  replace (String.length p + 3 - 3)%nat with (String.length p) by lia.
  apply substring_prefix.
Qed.

Lemma string_append_assoc (a b c : string) :
  ((a ++ b) ++ c = a ++ (b ++ c))%string.
Proof. induction a as [| x a IH]; cbn; [| rewrite IH]; reflexivity. Qed.

(** The two calling conventions agree: an open tree whose default node is
    [\name::TOP] is asked for the same node [\name::Ip] as the call by name,
    and the calls give the same result when the fallback path
    [\name::TOP::Ip] does not resolve where [\name::Ip] does not. *)
Theorem open_tree_agrees_with_name
        {Tree Node : Type} (mds : MDSplus.api Tree Node)
        (shot : option Z) (name : string) (tr : Tree) (threshold : float) :
  MDSplus.open_tree mds name shot = Ok tr ->
  MDSplus.getDefault mds tr = Ok (backslash ++ name ++ "::TOP")%string ->
  (forall e, MDSplus.getNode mds tr (backslash ++ name ++ "::Ip")%string = Err e ->
             exists e', MDSplus.getNode mds tr
                          ((backslash ++ name ++ "::TOP") ++ "::Ip")%string
                        = Err e') ->
  shot_length mds shot (TreeHandle tr) threshold
  = shot_length mds shot (TreeName name) threshold.
Proof.
  intros Hopen Hdef Hfall.
  assert (Hpath : (drop_last3 (backslash ++ name ++ "::TOP") ++ "Ip"
                   = backslash ++ name ++ "::Ip")%string).
  { replace (backslash ++ name ++ "::TOP")%string
      with ((backslash ++ name ++ "::") ++ "TOP")%string
      by (rewrite !string_append_assoc; reflexivity).
    rewrite drop_last3_append by reflexivity.
    rewrite !string_append_assoc. reflexivity. }
  unfold shot_length, load, ip_node.
  rewrite Hopen, Hdef. cbn [bind]. rewrite Hpath.
  destruct (MDSplus.getNode mds tr (backslash ++ name ++ "::Ip")%string)
    as [n | e] eqn:E.
  - reflexivity.
  - destruct (Hfall e eq_refl) as [e' ->]. reflexivity.
Qed.

Lemma open_tree_agrees_with_name_witness :
  shot_length (array_source scenario_current scenario_time)
              None (TreeHandle tt) default_threshold
  = shot_length (array_source scenario_current scenario_time)
                None (TreeName "MAGNETICS") default_threshold.
Proof.
  apply (open_tree_agrees_with_name
           (array_source scenario_current scenario_time)
           None "MAGNETICS" tt default_threshold).
  - reflexivity.
  - reflexivity.
  - intros e H. discriminate H.
Defined.
